(** * BSwap16: a file-backed block device that swaps the bytes of every
      16-bit word (src/bswap16.cpp)

    The development is a shallow embedding of the class template
    [BSwap16<BS>]: its machine integers, the caller's and the scratch
    arrays it touches, the [std::fstream] it owns, its constructor and its
    block operations, followed by the properties of the specification. *)

From Stdlib Require Import ZArith Lia String Ascii Init.Byte.
From stdpp Require Import base option list gmap.

Local Open Scope Z_scope.

(** ** Machine integers

    The source mixes [size_t] (unsigned, 64 bits), [std::streamoff] and
    [std::streamsize] (signed, 64 bits), [int] (signed, 32 bits) and the
    template parameter [unsigned BS] (32 bits).  Values are kept in [Z] and
    every conversion is written out. *)

Definition size_t_of (z : Z) : Z := z mod 2 ^ 64.

Definition streamoff_of (z : Z) : Z := (z + 2 ^ 63) mod 2 ^ 64 - 2 ^ 63.

Definition int_of (z : Z) : Z := (z + 2 ^ 31) mod 2 ^ 32 - 2 ^ 31.

(** ** Memory: the arrays behind [nbdcpp::byte*] and [char*]

    A pointer is the location of an array; [read] aliases the caller's
    array, [write] works on an array it gets from [new char[]]. *)

Definition loc := positive.

Abbreviation heap := (gmap loc (list byte)).

(** [d[i]] as an rvalue; outside the array the access is undefined. *)
Definition load (d : loc) (i : nat) (h : heap) : option byte :=
  match h !! d with
  | Some arr => arr !! i
  | None => None
  end.

(** [d[i] = v]; outside the array the access is undefined. *)
Definition store (d : loc) (i : nat) (v : byte) (h : heap) : option heap :=
  match h !! d with
  | Some arr => if decide (i < length arr)%nat
                then Some (<[d := <[i := v]> arr]> h)
                else None
  | None => None
  end.

(** [new char[n]]: a fresh array.  Its contents are indeterminate in C++;
    both callers overwrite all of it with [memcpy] before reading it.
    Running out of memory ([std::bad_alloc]) is not modelled. *)
Definition new_array (n : nat) (h : heap) : loc * heap :=
  let d := fresh (dom h) in (d, <[d := replicate n x00]> h).

(** [memcpy (dst, src, n)] between two arrays. *)
Definition memcpy (dst src : loc) (n : nat) (h : heap) : option heap :=
  match h !! dst, h !! src with
  | Some t, Some s =>
      if decide (n ≤ length t ∧ n ≤ length s)%nat
      then Some (<[dst := take n s ++ drop n t]> h)
      else None
  | _, _ => None
  end.

(** [delete[] d]. *)
Definition delete_array (d : loc) (h : heap) : heap := delete d h.

(** The loop shared by the four transfer functions:
<<
      for (size_t i = 0; i < n; i+=2)
      {
        char b = d[i];
        d[i] = d[i+1];
        d[i+1] = b;
      }
>>
    [fuel] bounds the number of iterations; [None] is an access outside the
    array (or no fuel left, which [bswap16] below excludes). *)
Fixpoint swap_loop (fuel : nat) (d : loc) (i n : nat) (h : heap) : option heap :=
  if decide (i < n)%nat then
    match fuel with
    | O => None
    | S fuel' =>
        match load d i h with
        | Some b =>
            match load d (i + 1) h with
            | Some b' =>
                match store d i b' h with
                | Some h1 =>
                    match store d (i + 1) b h1 with
                    | Some h2 => swap_loop fuel' d (i + 2) n h2
                    | None => None
                    end
                | None => None
                end
            | None => None
            end
        | None => None
        end
    end
  else Some h.

(** The loop run from [i = 0]; [n] iterations of fuel are more than the
    [n / 2] (rounded up) the loop makes. *)
Definition bswap16 (d : loc) (n : nat) (h : heap) : option heap :=
  swap_loop n d 0 n h.

(** The transform in the words of the specification: in a buffer, the bytes
    at offsets [i] and [i+1] are exchanged for every even [i]. *)
Fixpoint swap_pairs (l : list byte) : list byte :=
  match l with
  | a :: b :: l' => b :: a :: swap_pairs l'
  | _ => l
  end.

(** ** The stream: [std::fstream] over a regular file

    A [basic_filebuf] keeps one file position, shared by the get and the put
    side; the state bits are those of [std::ios_base::iostate].  Buffering is
    not modelled: [contents] is the file as seen through the stream, and a
    request the system does not serve shows in the call that makes it.  A
    [basic_filebuf] that buffers a short write defers it, and its failure
    with it, to the next seek, flush or close. *)

Record fstream := mk_fstream {
  contents : list byte;
  fpos : Z;
  eofbit : bool;
  failbit : bool;
  badbit : bool
}.

(** What the operating system does with the requests of one call: whether
    the seek is refused, whether the transfer breaks (after that many bytes
    at most), whether the sync is refused. *)
Record io := mk_io {
  seek_fails : bool;
  xfer_fails : option nat;
  sync_fails : bool
}.

(** The operating system serves every request. *)
Definition quiet : io := mk_io false None false.

(** [basic_ios::good()] *)
Definition ios_good (s : fstream) : bool :=
  negb (eofbit s) && negb (failbit s) && negb (badbit s).

(** [basic_ios::fail()] *)
Definition ios_fail (s : fstream) : bool := failbit s || badbit s.

(** [setstate (failbit)], [setstate (badbit)], [setstate (eofbit | failbit)] *)
Definition set_failbit (s : fstream) : fstream :=
  mk_fstream (contents s) (fpos s) (eofbit s) true (badbit s).

Definition set_badbit (s : fstream) : fstream :=
  mk_fstream (contents s) (fpos s) (eofbit s) (failbit s) true.

Definition set_eofbit_failbit (s : fstream) : fstream :=
  mk_fstream (contents s) (fpos s) true true (badbit s).

(** [clear (rdstate () & ~eofbit)], the first step of [seekg] since C++11 *)
Definition clear_eofbit (s : fstream) : fstream :=
  mk_fstream (contents s) (fpos s) false (failbit s) (badbit s).

(** [rdbuf()->pubseekpos (off)]: refused by the system, or for a negative
    offset; a position past the end of the file is accepted. *)
Definition pubseekpos (refused : bool) (off : Z) (s : fstream) : fstream :=
  if refused || (off <? 0) then set_failbit s
  else mk_fstream (contents s) off (eofbit s) (failbit s) (badbit s).

(** [basic_istream::seekg (pos)]: clears eofbit, builds the input sentry
    (which sets failbit on a stream that is not good) and seeks unless
    [fail ()]. *)
Definition seekg (refused : bool) (off : Z) (s : fstream) : fstream :=
  let s := clear_eofbit s in
  if ios_fail s then set_failbit s else pubseekpos refused off s.

(** [basic_istream::seekg (off, std::ios::end)] *)
Definition seekg_end (refused : bool) (off : Z) (s : fstream) : fstream :=
  let s := clear_eofbit s in
  if ios_fail s then set_failbit s
  else pubseekpos refused (Z.of_nat (length (contents s)) + off) s.

(** [basic_istream::tellg ()]: [pos_type (-1)] on a failed stream. *)
Definition tellg (s : fstream) : Z * fstream :=
  if ios_good s then (fpos s, s) else (-1, set_failbit s).

(** [basic_ostream::seekp (pos)]: the output sentry leaves the state as it
    is (an implementation may add failbit to a stream that has badbit, which
    [good ()] and [fail ()] do not tell apart); the seek is made unless
    [fail ()]. *)
Definition seekp (refused : bool) (off : Z) (s : fstream) : fstream :=
  if ios_fail s then s else pubseekpos refused off s.

(** [basic_istream::read (s, n)] for [0 <= n]: the bytes delivered, at most
    [n], from the file position on.  Fewer than [n] sets eofbit and failbit;
    a transfer that breaks sets badbit.  On a stream that is not good the
    sentry sets failbit and nothing is delivered. *)
Definition istream_read (broken : option nat) (n : Z) (s : fstream)
  : fstream * list byte :=
  if ios_good s then
    let avail := take (Z.to_nat n) (drop (Z.to_nat (fpos s)) (contents s)) in
    match broken with
    | None =>
        let s' := mk_fstream (contents s) (fpos s + Z.of_nat (length avail))
                    (eofbit s) (failbit s) (badbit s) in
        (if Z.of_nat (length avail) =? n then s' else set_eofbit_failbit s',
         avail)
    | Some k =>
        let got := take k avail in
        (set_badbit (mk_fstream (contents s) (fpos s + Z.of_nat (length got))
                       (eofbit s) (failbit s) (badbit s)),
         got)
    end
  else (set_failbit s, []).

(** The file after [bytes] are written at offset [pos]: a gap between the
    old end of the file and [pos] reads as zero bytes. *)
Definition pwrite (pos : nat) (bytes : list byte) (f : list byte) : list byte :=
  match bytes with
  | [] => f
  | _ => take pos f ++ replicate (pos - length f) x00 ++ bytes
         ++ drop (pos + length bytes) f
  end.

(** [basic_ostream::write (s, n)], [bytes] being the [n] bytes at [s]: a
    transfer that breaks sets badbit; on a stream that is not good nothing
    is written. *)
Definition ostream_write (broken : option nat) (bytes : list byte) (s : fstream)
  : fstream :=
  if ios_good s then
    match broken with
    | None =>
        mk_fstream (pwrite (Z.to_nat (fpos s)) bytes (contents s))
          (fpos s + Z.of_nat (length bytes)) (eofbit s) (failbit s) (badbit s)
    | Some k =>
        let put := take k bytes in
        set_badbit
          (mk_fstream (pwrite (Z.to_nat (fpos s)) put (contents s))
             (fpos s + Z.of_nat (length put)) (eofbit s) (failbit s) (badbit s))
    end
  else s.

(** [basic_ostream::put (c)], as [write] of one byte.  With a buffering
    [basic_filebuf] the byte only reaches the buffer during the call, which
    then cannot fail: what is proved of a growth that fails is proved of a
    seek that is refused. *)
Definition ostream_put (broken : option nat) (c : byte) (s : fstream) : fstream :=
  ostream_write broken [c] s.

(** [basic_ostream::flush ()]: badbit when the sync is refused. *)
Definition ostream_flush (refused : bool) (s : fstream) : fstream :=
  if ios_good s then (if refused then set_badbit s else s) else s.

(** What the file system holds under the name given to the constructor:
    [openable = Some c] when the file exists and opens for reading and
    writing, [c] being its bytes; [creatable] tells whether opening with
    [trunc] succeeds once the first attempt has failed. *)
Record filesystem := mk_filesystem {
  openable : option (list byte);
  creatable : bool
}.

(** [std::fstream (fname, openflags ())]: failbit when the file does not
    open. *)
Definition fstream_ctor (fs : filesystem) : fstream :=
  match openable fs with
  | Some c => mk_fstream c 0 false false false
  | None => mk_fstream [] 0 false true false
  end.

(** [open (fname, openflags () | trunc)]: an empty file and a cleared state
    on success, failbit otherwise. *)
Definition fstream_open_trunc (fs : filesystem) (s : fstream) : fstream :=
  if creatable fs then mk_fstream [] 0 false false false else set_failbit s.

(** ** The class [BSwap16<BS>] *)

Record BSwap16 := mk_BSwap16 {
  _file : fstream;
  _nblocks : Z          (* int *)
}.

(** How the constructor ends: [exit (status)] after a diagnostic on
    [nbdcpp::errout ()], or an instance, with the sizes of the warning sent
    to [nbdcpp::logout ()] if there was one. *)
Inductive construction :=
  | Exited (status : Z) (diagnostic : string)
  | Constructed (b : BSwap16) (warning : option (Z * Z)).

(** A request of the dispatcher, one constructor per member function. *)
Inductive request :=
  | Read (index : Z) (data : loc)
  | Write (index : Z) (data : loc)
  | Multiread (index count : Z) (data : loc)
  | Multiwrite (index count : Z) (data : loc)
  | Flush
  | Trim (index count : Z).

Definition newline : string := String (Ascii.ascii_of_nat 10) EmptyString.

(** [basic_istream::read (d, n)] into the array at [d]: the bytes delivered
    replace the first bytes of the array. *)
Definition read_into (broken : option nat) (d : loc) (n : Z) (s : fstream) (h : heap)
  : option (fstream * heap) :=
  let '(s', got) := istream_read broken n s in
  match h !! d with
  | Some arr =>
      if decide (length got ≤ length arr)%nat
      then Some (s', <[d := got ++ drop (length got) arr]> h)
      else None
  | None => None
  end.

(** [basic_ostream::write (d, n)] from the array at [d]. *)
Definition write_from (broken : option nat) (d : loc) (n : Z) (s : fstream) (h : heap)
  : option fstream :=
  match h !! d with
  | Some arr =>
      if decide (Z.to_nat n ≤ length arr)%nat
      then Some (ostream_write broken (take (Z.to_nat n) arr) s)
      else None
  | None => None
  end.

Section BSwap16_members.

(** The template parameter [unsigned BS].  The properties take it in
    [0 < BS < 2^32]: with [BS = 0] the constructor would divide by zero. *)
Context (BS : Z).

(** [static constexpr size_t blocksize () { return BS; }] *)
Definition blocksize : Z := BS.

(** The second half of the constructor, from [if (nblocks == 0)] on, with
    the stream and [actsize] the first half leaves. *)
Definition resolve (e : io) (nblocks : Z) (f : fstream) (actsize : Z)
  : construction :=
  if nblocks =? 0 then
    if actsize <=? 0 then
      Exited 1 ("Error: file is empty and you did not specify a size"
                ++ newline)
    else
      Constructed (mk_BSwap16 f (int_of (size_t_of actsize / blocksize))) None
  else
    let totsize := streamoff_of (size_t_of (nblocks * blocksize)) in
    if actsize <? totsize then
      let f1 := seekp (seek_fails e) (streamoff_of (totsize - 1)) f in
      let f2 := ostream_put (xfer_fails e) x00 f1 in
      Constructed (mk_BSwap16 f2 (int_of nblocks)) (Some (actsize, totsize))
    else
      Constructed (mk_BSwap16 f (int_of nblocks)) None.

(** [BSwap16 (const std::string& fname, size_t nblocks=0)]; [e] is what
    the system does with the requests that grow the file. *)
Definition BSwap16_ctor (fs : filesystem) (e : io) (fname : string) (nblocks : Z)
  : construction :=
  let f := fstream_ctor fs in
  if negb (ios_fail f) then
    let '(start, f) := tellg f in
    let f := seekg_end false 0 f in
    let '(stop, f) := tellg f in
    resolve e nblocks f (streamoff_of (stop - start))
  else
    if nblocks =? 0 then
      Exited 1 ("Error: file " ++ fname
                ++ " doesn't exist or couldn't be opened" ++ newline)
    else
      let f := fstream_open_trunc fs f in
      if ios_fail f then
        Exited 1 ("ERROR: could not open or create file " ++ fname ++ newline)
      else
        resolve e nblocks f 0.

(** [bool good () const { return _file.good (); }] *)
Definition good (b : BSwap16) : bool := ios_good (_file b).

(** [size_t numblocks () const { return _nblocks; }] *)
Definition numblocks (b : BSwap16) : Z := size_t_of (_nblocks b).

(** [void read (size_t index, nbdcpp::byte* data) const]; a transfer size
    that is negative as a [std::streamsize] is outside the contract of the
    stream, as is an access outside an array: [None]. *)
Definition read (e : io) (index : Z) (data : loc) (b : BSwap16) (h : heap)
  : option (BSwap16 * heap) :=
  let d := data in
  let f := seekg (seek_fails e)
             (streamoff_of (size_t_of (index * blocksize))) (_file b) in
  let n := streamoff_of blocksize in
  if n <? 0 then None else
  match read_into (xfer_fails e) d n f h with
  | Some (f, h) =>
      match bswap16 d (Z.to_nat blocksize) h with
      | Some h => Some (mk_BSwap16 f (_nblocks b), h)
      | None => None
      end
  | None => None
  end.

(** [void write (size_t index, const nbdcpp::byte* data)] *)
Definition write (e : io) (index : Z) (data : loc) (b : BSwap16) (h : heap)
  : option (BSwap16 * heap) :=
  let '(d, h) := new_array (Z.to_nat blocksize) h in
  match memcpy d data (Z.to_nat blocksize) h with
  | Some h =>
      match bswap16 d (Z.to_nat blocksize) h with
      | Some h =>
          let f := seekp (seek_fails e)
                     (streamoff_of (size_t_of (index * blocksize))) (_file b) in
          let n := streamoff_of blocksize in
          if n <? 0 then None else
          match write_from (xfer_fails e) d n f h with
          | Some f => Some (mk_BSwap16 f (_nblocks b), delete_array d h)
          | None => None
          end
      | None => None
      end
  | None => None
  end.

(** [void multiread (size_t index, size_t count, nbdcpp::byte* data) const] *)
Definition multiread (e : io) (index count : Z) (data : loc) (b : BSwap16)
  (h : heap) : option (BSwap16 * heap) :=
  let d := data in
  let f := seekg (seek_fails e)
             (streamoff_of (size_t_of (index * blocksize))) (_file b) in
  let n := streamoff_of (size_t_of (count * blocksize)) in
  if n <? 0 then None else
  match read_into (xfer_fails e) d n f h with
  | Some (f, h) =>
      match bswap16 d (Z.to_nat (size_t_of (count * blocksize))) h with
      | Some h => Some (mk_BSwap16 f (_nblocks b), h)
      | None => None
      end
  | None => None
  end.

(** [void multiwrite (size_t index, size_t count, const nbdcpp::byte* data)] *)
Definition multiwrite (e : io) (index count : Z) (data : loc) (b : BSwap16)
  (h : heap) : option (BSwap16 * heap) :=
  let '(d, h) := new_array (Z.to_nat (size_t_of (count * blocksize))) h in
  match memcpy d data (Z.to_nat (size_t_of (count * blocksize))) h with
  | Some h =>
      match bswap16 d (Z.to_nat (size_t_of (count * blocksize))) h with
      | Some h =>
          let f := seekp (seek_fails e)
                     (streamoff_of (size_t_of (index * blocksize))) (_file b) in
          let n := streamoff_of (size_t_of (count * blocksize)) in
          if n <? 0 then None else
          match write_from (xfer_fails e) d n f h with
          | Some f => Some (mk_BSwap16 f (_nblocks b), delete_array d h)
          | None => None
          end
      | None => None
      end
  | None => None
  end.

(** [constexpr bool flushes () const { return true; }] *)
Definition flushes (b : BSwap16) : bool := true.

(** [void flush () const { _file.flush (); }] *)
Definition flush (e : io) (b : BSwap16) : BSwap16 :=
  mk_BSwap16 (ostream_flush (sync_fails e) (_file b)) (_nblocks b).

(** [constexpr bool trims () const { return false; }] *)
Definition trims (b : BSwap16) : bool := false.

(** [void trim (size_t, size_t) { }] *)
Definition trim (index count : Z) (b : BSwap16) : BSwap16 := b.

(** The dispatcher calls one member function per request. *)
Definition serve (e : io) (r : request) (b : BSwap16) (h : heap)
  : option (BSwap16 * heap) :=
  match r with
  | Read index data => read e index data b h
  | Write index data => write e index data b h
  | Multiread index count data => multiread e index count data b h
  | Multiwrite index count data => multiwrite e index count data b h
  | Flush => Some (flush e b, h)
  | Trim index count => Some (trim index count b, h)
  end.

(** A session: the requests in order, each with what the system does
    during it. *)
Fixpoint serve_all (rs : list (io * request)) (b : BSwap16) (h : heap)
  : option (BSwap16 * heap) :=
  match rs with
  | [] => Some (b, h)
  | (e, r) :: rs' =>
      match serve e r b h with
      | Some (b', h') => serve_all rs' b' h'
      | None => None
      end
  end.

End BSwap16_members.

(** [main]: the size given with [-s], in KB, becomes the block count handed
    to the constructor of [BSwap16<>] (block size 512), in [size_t]:
    [size = 1 + (size*1024 - 1) / BSwap16<>::blocksize ()]. *)
Definition blocks_of_kb (size : Z) : Z :=
  size_t_of (1 + size_t_of (size_t_of (size * 1024) - 1) / blocksize 512).

(** ** Vocabulary of the specification *)

(** eofbit is never set without failbit: [basic_istream::read] sets both. *)
Definition eof_implies_fail (s : fstream) : Prop :=
  eofbit s = true → failbit s = true.

(** The size of the backing file, in bytes. *)
Definition file_size (b : BSwap16) : Z := Z.of_nat (length (contents (_file b))).

(** The size invariant of the data model: the backing file holds at least
    [block_count * block_size] bytes. *)
Definition covers (BS : Z) (b : BSwap16) : Prop :=
  numblocks b * blocksize BS ≤ file_size b.

(** File sizes are offsets of the system ([off_t], 64 bits, signed). *)
Definition off_t_sized (b : BSwap16) : Prop := file_size b < 2 ^ 63.

(** The instances a session can see: the constructor's, and what serving a
    request makes of one. *)
Inductive reachable (BS : Z) : BSwap16 → Prop :=
  | reachable_ctor fs e fname nblocks b w :
      BSwap16_ctor BS fs e fname nblocks = Constructed b w →
      reachable BS b
  | reachable_serve e r b h b' h' :
      reachable BS b →
      serve BS e r b h = Some (b', h') →
      reachable BS b'.

(** The requests that transfer data, the array they use, the byte offset
    they address and the number of bytes they move. *)
Definition is_transfer (r : request) : bool :=
  match r with
  | Read _ _ | Write _ _ | Multiread _ _ _ | Multiwrite _ _ _ => true
  | Flush | Trim _ _ => false
  end.

Definition is_read (r : request) : bool :=
  match r with
  | Read _ _ | Multiread _ _ _ => true
  | _ => false
  end.

Definition request_offset (BS : Z) (r : request) : Z :=
  match r with
  | Read index _ | Write index _
  | Multiread index _ _ | Multiwrite index _ _ => index * BS
  | Flush | Trim _ _ => 0
  end.

Definition request_bytes (BS : Z) (r : request) : Z :=
  match r with
  | Read _ _ | Write _ _ => BS
  | Multiread _ count _ | Multiwrite _ count _ => count * BS
  | Flush | Trim _ _ => 0
  end.

(** The contract of the caller: the array of a transfer holds at least the
    bytes to move, and offset and size are below [2^63]. *)
Definition request_ok (BS : Z) (r : request) (h : heap) : Prop :=
  match r with
  | Read _ data | Write _ data | Multiread _ _ data | Multiwrite _ _ data =>
      0 ≤ request_offset BS r < 2 ^ 63 ∧
      0 ≤ request_bytes BS r < 2 ^ 63 ∧
      ∃ arr, h !! data = Some arr ∧ request_bytes BS r ≤ Z.of_nat (length arr)
  | Flush | Trim _ _ => True
  end.

(** An I/O failure during a transfer: the system refuses the seek or breaks
    the transfer, or a read asks for bytes past the end of the file. *)
Definition io_failure (BS : Z) (e : io) (r : request) (b : BSwap16) : Prop :=
  is_transfer r = true ∧
  (seek_fails e = true ∨ xfer_fails e ≠ None ∨
   (is_read r = true ∧ 0 < request_bytes BS r ∧
    file_size b < request_offset BS r + request_bytes BS r)).

(** The stream after a request, as the member function leaves it. *)
Definition stream_after (BS : Z) (e : io) (r : request) (s s' : fstream) : Prop :=
  match r with
  | Read index _ =>
      s' = (istream_read (xfer_fails e) (streamoff_of BS)
              (seekg (seek_fails e) (streamoff_of (size_t_of (index * BS))) s)).1
  | Multiread index count _ =>
      s' = (istream_read (xfer_fails e) (streamoff_of (size_t_of (count * BS)))
              (seekg (seek_fails e) (streamoff_of (size_t_of (index * BS))) s)).1
  | Write index _ | Multiwrite index _ _ =>
      ∃ bytes,
        s' = ostream_write (xfer_fails e) bytes
               (seekp (seek_fails e) (streamoff_of (size_t_of (index * BS))) s)
  | Flush => s' = ostream_flush (sync_fails e) s
  | Trim _ _ => s' = s
  end.

(** The configuration errors of the specification: no file to open and no
    size given; no file to open and none can be created; an empty file and
    no size given. *)
Definition fatal (fs : filesystem) (nblocks : Z) : Prop :=
  (openable fs = None ∧ nblocks = 0) ∨
  (openable fs = None ∧ creatable fs = false) ∨
  (openable fs = Some [] ∧ nblocks = 0).

(** File sizes are offsets of the system, for the file the constructor
    opens as well. *)
Definition off_t_sized_fs (fs : filesystem) : Prop :=
  ∀ c, openable fs = Some c → Z.of_nat (length c) < 2 ^ 63.

(** [actual_size_bytes] of the specification, the size the constructor
    finds: that of the file it opens, 0 for the file it creates. *)
Definition actual_size (fs : filesystem) : Z :=
  match openable fs with
  | Some c => Z.of_nat (length c)
  | None => 0
  end.

(** A fully valid instance: in good health, over a file that holds all of
    its blocks. *)
Definition valid (BS : Z) (b : BSwap16) : Prop := good b = true ∧ covers BS b.

(** ** [main]

    [main] reads the file name and the optional [-s size] and leaves the rest
    of the command line to [nbdcpp_main], which is not code of this file. *)

(** How [main] ends: [return 1] after [usage ()], or the call
    [nbdcpp_main<BSwap16<>> (argc, argv, argind, usage, fname, size)]. *)
Inductive main_outcome :=
  | Usage
  | Serve (argind : nat) (fname : string) (size : Z).

(** [fname.size () == 0 || fname[0] == '-'] *)
Definition no_file_name (fname : string) : bool :=
  match fname with
  | EmptyString => true
  | String c _ => Ascii.eqb c "-"%char
  end.

Section Main.

(** [istringstream (s) >> size] for [size_t size]: the value extracted, a
    [size_t], when the extraction succeeds. *)
Context (extract_size_t : string → option Z).

(** [int main (int argc, char** argv)], [argv] holding [argc] strings. *)
Definition main (argv : list string) : main_outcome :=
  let argc := length argv in
  let argind := 1%nat in
  if decide (argc ≤ argind)%nat then Usage else
  match argv !! argind with
  | None => Usage
  | Some fname =>
      if no_file_name fname then Usage else
      let argind := S argind in
      if bool_decide (argind < argc)%nat
         && bool_decide (argv !! argind = Some "-s"%string)
      then
        let argind := S argind in
        if decide (argc ≤ argind)%nat then Usage else
        match argv !! argind with
        | None => Usage
        | Some arg =>
            match extract_size_t arg with
            | None => Usage
            | Some size =>
                if size <=? 0 then Usage
                else Serve (S argind) fname (blocks_of_kb size)
            end
        end
      else Serve argind fname 0
  end.

End Main.

(** ** More vocabulary: requests within the device *)

(** A request addresses blocks of the device only. *)
Definition in_range (b : BSwap16) (r : request) : Prop :=
  match r with
  | Read index _ | Write index _ => 0 ≤ index < numblocks b
  | Multiread index count _ | Multiwrite index count _ =>
      0 ≤ index ∧ 0 ≤ count ∧ index + count ≤ numblocks b
  | Flush | Trim _ _ => True
  end.

(** The array of a transfer holds at least the bytes to move. *)
Definition has_room (BS : Z) (r : request) (h : heap) : Prop :=
  match r with
  | Read _ data | Write _ data | Multiread _ _ data | Multiwrite _ _ data =>
      ∃ arr, h !! data = Some arr ∧ request_bytes BS r ≤ Z.of_nat (length arr)
  | Flush | Trim _ _ => True
  end.

(** ** A small device, for the concrete scenarios

    Block size 4, two blocks: a file of eight zero bytes, the instance the
    constructor makes of it, and a memory with two arrays of the caller. *)

Definition demo_disk : filesystem := mk_filesystem (Some (replicate 8 x00)) false.

Definition demo_backend : BSwap16 :=
  mk_BSwap16 (mk_fstream (replicate 8 x00) 8 false false false) 2.

Definition demo_heap : heap :=
  {[ 1%positive := [x01; x02; x03; x04]; 2%positive := [xaa; xbb; xcc; xdd] ]}.

(** [demo_backend] after [write (0, ...)] from the array at [1]. *)
Definition demo_written : BSwap16 :=
  mk_BSwap16
    (mk_fstream [x02; x01; x04; x03; x00; x00; x00; x00] 4 false false false) 2.

(** [demo_backend] after [read (2, ...)], a block past the end of the file,
    into the array at [2], and the memory that read leaves. *)
Definition demo_failed : BSwap16 :=
  mk_BSwap16 (mk_fstream (replicate 8 x00) 8 true true false) 2.

Definition demo_heap_failed : heap :=
  {[ 1%positive := [x01; x02; x03; x04]; 2%positive := [xbb; xaa; xdd; xcc] ]}.

(** * Properties *)

(** ** Machine integers *)

Lemma size_t_of_small z : 0 ≤ z < 2 ^ 64 → size_t_of z = z.
Proof. intros Hz. unfold size_t_of. by apply Z.mod_small. Qed.

Lemma streamoff_of_small z : - 2 ^ 63 ≤ z < 2 ^ 63 → streamoff_of z = z.
Proof. intros Hz. unfold streamoff_of. rewrite Z.mod_small; lia. Qed.

Lemma int_of_small z : - 2 ^ 31 ≤ z < 2 ^ 31 → int_of z = z.
Proof. intros Hz. unfold int_of. rewrite Z.mod_small; lia. Qed.


Lemma offset_small z : 0 ≤ z < 2 ^ 63 → streamoff_of (size_t_of z) = z.
Proof.
  intros Hz. rewrite size_t_of_small by lia. apply streamoff_of_small. lia.
Qed.

(** ** The transform on lists *)

Lemma swap_pairs_length l : length (swap_pairs l) = length l.
Proof.
  induction l as [l IH] using (induction_ltof1 _ (@length byte)).
  unfold ltof in IH. destruct l as [|a [|b l]]; simpl; try done.
  rewrite IH; simpl; lia.
Qed.

Lemma swap_pairs_involutive l : swap_pairs (swap_pairs l) = l.
Proof.
  induction l as [l IH] using (induction_ltof1 _ (@length byte)).
  unfold ltof in IH. destruct l as [|a [|b l]]; simpl; try done.
  rewrite IH; simpl; [done | lia].
Qed.

Lemma swap_pairs_app l1 l2 :
  Nat.Even (length l1) → swap_pairs (l1 ++ l2) = swap_pairs l1 ++ swap_pairs l2.
Proof.
  induction l1 as [l1 IH] using (induction_ltof1 _ (@length byte)).
  unfold ltof in IH. intros Hev. destruct l1 as [|a [|b l1]]; simpl in *.
  - done.
  - destruct Hev as [k Hk]. lia.
  - rewrite IH; [done | lia |]. destruct Hev as [k Hk]. exists (k - 1)%nat. lia.
Qed.

(** The bytes at offsets [i] and [i+1] trade places, for every even [i]. *)
Lemma swap_pairs_lookup l i :
  Nat.Even i → (i + 1 < length l)%nat →
  swap_pairs l !! i = l !! (i + 1)%nat ∧ swap_pairs l !! (i + 1)%nat = l !! i.
Proof.
  revert l. induction i as [i IH] using lt_wf_ind. intros l Hev Hlt.
  destruct l as [|a [|b l]]; simpl in *; try lia.
  destruct i as [|[|i]].
  - done.
  - destruct Hev as [k Hk]. lia.
  - simpl. apply IH; [lia | | lia].
    destruct Hev as [k Hk]. exists (k - 1)%nat. lia.
Qed.

(** ** The loop of the source against the transform *)

Lemma load_lookup d i (h : heap) arr : h !! d = Some arr → load d i h = arr !! i.
Proof. intros Hd. unfold load. by rewrite Hd. Qed.

Lemma store_insert d i v (h : heap) arr :
  h !! d = Some arr → (i < length arr)%nat →
  store d i v h = Some (<[d := <[i := v]> arr]> h).
Proof.
  intros Hd Hi. unfold store. rewrite Hd. by rewrite decide_True.
Qed.

(** The loop, started at the end of [pre] with [k] pairs [mid] ahead of it,
    leaves [pre] and [post] alone and exchanges the pairs of [mid]. *)
Lemma swap_loop_pairs d k :
  ∀ fuel pre mid post (h : heap),
    length mid = (2 * k)%nat → (k ≤ fuel)%nat →
    h !! d = Some (pre ++ mid ++ post) →
    swap_loop fuel d (length pre) (length pre + length mid) h
    = Some (<[d := pre ++ swap_pairs mid ++ post]> h).
Proof.
  induction k as [|k IH]; intros fuel pre mid post h Hlen Hfuel Hd.
  - destruct mid; [|simpl in Hlen; lia]. simpl.
    replace (length pre + 0)%nat with (length pre) by lia.
    destruct fuel; simpl; rewrite decide_False by lia;
      by rewrite insert_id.
  - destruct mid as [|a [|b mid]]; simpl in Hlen; try lia.
    destruct fuel as [|fuel]; [lia|].
    simpl swap_loop. rewrite decide_True by (simpl; lia).
    assert (Ha : (pre ++ (a :: b :: mid) ++ post) !! length pre = Some a)
      by (by apply list_lookup_middle).
    assert (Hb : (pre ++ (a :: b :: mid) ++ post) !! (length pre + 1)%nat = Some b).
    { replace (pre ++ (a :: b :: mid) ++ post)
        with ((pre ++ [a]) ++ b :: mid ++ post) by (by rewrite <- app_assoc).
      apply list_lookup_middle. rewrite length_app. simpl. lia. }
    rewrite (load_lookup _ _ _ _ Hd), Ha.
    rewrite (load_lookup _ _ _ _ Hd), Hb.
    rewrite (store_insert _ _ _ _ _ Hd)
      by (rewrite !length_app; simpl; lia).
    rewrite (store_insert d (length pre + 1) a _
               (<[length pre := b]> (pre ++ (a :: b :: mid) ++ post)))
      by (rewrite ?lookup_insert_eq, ?length_insert, ?length_app; simpl; (done || lia)).
    rewrite insert_insert_eq.
    assert (Harr : <[(length pre + 1)%nat := a]>
                     (<[length pre := b]> (pre ++ (a :: b :: mid) ++ post))
                   = (pre ++ [b; a]) ++ mid ++ post).
    { replace (length pre) with (length pre + 0)%nat at 2 by lia.
      rewrite insert_app_r. simpl. rewrite insert_app_r. simpl.
      by rewrite <- app_assoc. }
    rewrite Harr.
    replace (length pre + 2)%nat with (length (pre ++ [b; a]))
      by (rewrite length_app; simpl; lia).
    replace (length pre + S (S (length mid)))%nat
      with (length (pre ++ [b; a]) + length mid)%nat
      by (rewrite length_app; simpl; lia).
    rewrite (IH fuel (pre ++ [b; a]) mid post); [| lia | lia | by rewrite lookup_insert_eq].
    rewrite insert_insert_eq. simpl. by rewrite <- app_assoc.
Qed.

(** On an array of at least [n] bytes, [n] even, the loop ends and the
    first [n] bytes of the array are transformed. *)
Lemma bswap16_swap_pairs d n (h : heap) arr :
  h !! d = Some arr → Nat.Even n → (n ≤ length arr)%nat →
  bswap16 d n h = Some (<[d := swap_pairs (take n arr) ++ drop n arr]> h).
Proof.
  intros Hd [k Hk] Hn. unfold bswap16.
  pose proof (swap_loop_pairs d k n [] (take n arr) (drop n arr) h) as Hloop.
  simpl in Hloop. rewrite length_take_le in Hloop by lia.
  apply Hloop; [lia | lia | by rewrite take_drop].
Qed.

(** The loop stores through [d] only. *)
Lemma store_frame d i v (h h' : heap) l :
  store d i v h = Some h' → l ≠ d → h' !! l = h !! l.
Proof.
  unfold store. intros Hst Hl. destruct (h !! d) as [arr|] eqn:Hd; [|done].
  case_decide; [|done]. injection Hst as <-. by rewrite lookup_insert_ne.
Qed.

Lemma swap_loop_frame d n l fuel :
  ∀ i (h h' : heap),
    swap_loop fuel d i n h = Some h' → l ≠ d → h' !! l = h !! l.
Proof.
  induction fuel as [|fuel IH]; intros i h h' Hloop Hl; simpl in Hloop.
  - case_decide; [done|]. by injection Hloop as <-.
  - case_decide; [|by injection Hloop as <-].
    destruct (load d i h) as [b|]; [|done].
    destruct (load d (i + 1) h) as [b'|]; [|done].
    destruct (store d i b' h) as [h1|] eqn:H1; [|done].
    destruct (store d (i + 1) b h1) as [h2|] eqn:H2; [|done].
    rewrite (IH _ _ _ Hloop Hl).
    rewrite (store_frame _ _ _ _ _ _ H2 Hl).
    by rewrite (store_frame _ _ _ _ _ _ H1 Hl).
Qed.

(** ** The file under [pwrite] *)

Lemma pwrite_length pos bytes f :
  bytes ≠ [] →
  length (pwrite pos bytes f) = (length f `max` (pos + length bytes))%nat.
Proof.
  intros Hne. unfold pwrite. destruct bytes as [|c bytes]; [done|].
  rewrite !length_app, length_take, length_replicate, length_drop. lia.
Qed.

(** No write makes the file shorter. *)
Lemma pwrite_grows pos bytes f : (length f ≤ length (pwrite pos bytes f))%nat.
Proof.
  destruct bytes as [|c bytes]; [done|].
  rewrite pwrite_length by done. lia.
Qed.

(** The bytes written are the bytes found at [pos] afterwards. *)
Lemma pwrite_window pos bytes f :
  take (length bytes) (drop pos (pwrite pos bytes f)) = bytes.
Proof.
  unfold pwrite. destruct bytes as [|c bytes]; [done|].
  rewrite (app_assoc (take pos f)).
  rewrite drop_app_length'
    by (rewrite length_app, length_take, length_replicate; lia).
  by rewrite take_app_length.
Qed.

(** Bytes of the old file before [pos] stay as they are. *)
Lemma pwrite_before pos bytes f i :
  (i < pos)%nat → (i < length f)%nat → pwrite pos bytes f !! i = f !! i.
Proof.
  intros Hi Hf. unfold pwrite. destruct bytes as [|c bytes]; [done|].
  rewrite lookup_app_l by (rewrite length_take; lia).
  by rewrite lookup_take_lt.
Qed.

(** ** The state bits

    [ios_fail] latches: no member function of the stream that the class
    calls clears failbit or badbit.  eofbit alone would not latch ([seekg]
    clears it), but the class never leaves it alone: [eof_implies_fail]. *)

Lemma not_good_fails s :
  eof_implies_fail s → ios_good s = false → ios_fail s = true.
Proof.
  unfold eof_implies_fail, ios_good, ios_fail.
  destruct (eofbit s), (failbit s), (badbit s); simpl; intros H1 H2;
    try done; by specialize (H1 eq_refl).
Qed.

Lemma fails_not_good s : ios_fail s = true → ios_good s = false.
Proof.
  unfold ios_good, ios_fail. by destruct (eofbit s), (failbit s), (badbit s).
Qed.

Lemma good_eof_implies_fail s : ios_good s = true → eof_implies_fail s.
Proof.
  unfold ios_good, eof_implies_fail. by destruct (eofbit s), (failbit s).
Qed.

Lemma pubseekpos_fail refused off s :
  ios_fail s = true → ios_fail (pubseekpos refused off s) = true.
Proof.
  unfold pubseekpos, ios_fail. destruct (refused || (off <? 0)); simpl; [|done].
  by destruct (badbit s).
Qed.

Lemma seekg_fail refused off s :
  ios_fail s = true → ios_fail (seekg refused off s) = true.
Proof.
  unfold seekg. intros Hf.
  replace (ios_fail (clear_eofbit s)) with true by done. done.
Qed.

Lemma seekp_fail refused off s :
  ios_fail s = true → ios_fail (seekp refused off s) = true.
Proof. unfold seekp. intros Hf. by rewrite Hf. Qed.

Lemma istream_read_fail broken n s :
  ios_fail s = true → ios_fail (istream_read broken n s).1 = true.
Proof.
  intros Hf. unfold istream_read. by rewrite (fails_not_good _ Hf).
Qed.

Lemma ostream_write_fail broken bytes s :
  ios_fail s = true → ios_fail (ostream_write broken bytes s) = true.
Proof.
  intros Hf. unfold ostream_write. by rewrite (fails_not_good _ Hf).
Qed.

Lemma ostream_flush_fail refused s :
  ios_fail s = true → ios_fail (ostream_flush refused s) = true.
Proof.
  intros Hf. unfold ostream_flush. by rewrite (fails_not_good _ Hf).
Qed.

Lemma pubseekpos_eof refused off s :
  eof_implies_fail s → eof_implies_fail (pubseekpos refused off s).
Proof.
  unfold pubseekpos, eof_implies_fail.
  by destruct (refused || (off <? 0)).
Qed.

Lemma seekg_eof refused off s : eof_implies_fail (seekg refused off s).
Proof.
  unfold seekg. destruct (ios_fail (clear_eofbit s)); [done|].
  by apply pubseekpos_eof.
Qed.

Lemma seekp_eof refused off s :
  eof_implies_fail s → eof_implies_fail (seekp refused off s).
Proof.
  unfold seekp. intros He. destruct (ios_fail s); [done|].
  by apply pubseekpos_eof.
Qed.

Lemma istream_read_eof broken n s :
  eof_implies_fail s → eof_implies_fail (istream_read broken n s).1.
Proof.
  unfold istream_read. intros He.
  destruct (ios_good s) eqn:Hg; [|done].
  destruct broken as [k|]; simpl; [done|].
  by destruct (_ =? n).
Qed.

Lemma ostream_write_eof broken bytes s :
  eof_implies_fail s → eof_implies_fail (ostream_write broken bytes s).
Proof.
  unfold ostream_write. intros He.
  destruct (ios_good s); [|done]. by destruct broken.
Qed.

Lemma ostream_flush_eof refused s :
  eof_implies_fail s → eof_implies_fail (ostream_flush refused s).
Proof.
  unfold ostream_flush. intros He.
  destruct (ios_good s); [|done]. by destruct refused.
Qed.

(** [read] delivers at most the bytes asked for. *)
Lemma istream_read_length broken n s :
  (length (istream_read broken n s).2 ≤ Z.to_nat n)%nat.
Proof.
  unfold istream_read. destruct (ios_good s); [|simpl; lia].
  destruct broken; simpl; rewrite ?length_take; lia.
Qed.

Lemma set_failbit_fail s : ios_fail (set_failbit s) = true.
Proof. done. Qed.

Lemma set_badbit_fail s : ios_fail (set_badbit s) = true.
Proof. unfold ios_fail. simpl. by destruct (failbit s). Qed.

Lemma set_badbit_not_good s : ios_good (set_badbit s) = false.
Proof. unfold ios_good. simpl. by destruct (eofbit s), (failbit s). Qed.

Lemma set_failbit_not_good s : ios_good (set_failbit s) = false.
Proof. unfold ios_good. simpl. by destruct (eofbit s). Qed.

Lemma set_eofbit_failbit_not_good s : ios_good (set_eofbit_failbit s) = false.
Proof. done. Qed.

(** Seeking leaves the file as it is. *)
Lemma pubseekpos_contents refused off s :
  contents (pubseekpos refused off s) = contents s.
Proof. unfold pubseekpos. by destruct (refused || (off <? 0)). Qed.

Lemma seekp_contents refused off s : contents (seekp refused off s) = contents s.
Proof.
  unfold seekp. destruct (ios_fail s); [done|]. apply pubseekpos_contents.
Qed.

Lemma seekg_contents refused off s : contents (seekg refused off s) = contents s.
Proof.
  unfold seekg. destruct (ios_fail _); [done|]. by rewrite pubseekpos_contents.
Qed.

(** On a stream that is good, with the system serving every request, the
    calls do what their names say. *)
Lemma good_bits s :
  ios_good s = true → eofbit s = false ∧ failbit s = false ∧ badbit s = false.
Proof. unfold ios_good. by destruct (eofbit s), (failbit s), (badbit s). Qed.

Lemma seekp_good off s :
  ios_good s = true → 0 ≤ off →
  seekp false off s = mk_fstream (contents s) off false false false.
Proof.
  intros Hg Hoff. destruct (good_bits s Hg) as (He & Hf & Hb).
  unfold seekp, ios_fail, pubseekpos. rewrite He, Hf, Hb. simpl.
  by destruct (Z.ltb_spec off 0); [lia|].
Qed.

Lemma seekg_good off s :
  ios_good s = true → 0 ≤ off →
  seekg false off s = mk_fstream (contents s) off false false false.
Proof.
  intros Hg Hoff. destruct (good_bits s Hg) as (He & Hf & Hb).
  unfold seekg, ios_fail, pubseekpos, clear_eofbit. simpl. rewrite Hf, Hb. simpl.
  by destruct (Z.ltb_spec off 0); [lia|].
Qed.

Lemma ostream_write_good bytes s :
  ios_good s = true →
  ostream_write None bytes s
  = mk_fstream (pwrite (Z.to_nat (fpos s)) bytes (contents s))
      (fpos s + Z.of_nat (length bytes)) false false false.
Proof.
  intros Hg. destruct (good_bits s Hg) as (He & Hf & Hb).
  unfold ostream_write. by rewrite Hg, He, Hf, Hb.
Qed.

Lemma istream_read_good n s :
  ios_good s = true →
  (Z.to_nat n ≤ length (drop (Z.to_nat (fpos s)) (contents s)))%nat → 0 ≤ n →
  istream_read None n s
  = (mk_fstream (contents s) (fpos s + n) false false false,
     take (Z.to_nat n) (drop (Z.to_nat (fpos s)) (contents s))).
Proof.
  intros Hg Hlen Hn. destruct (good_bits s Hg) as (He & Hf & Hb).
  unfold istream_read. rewrite Hg, He, Hf, Hb.
  rewrite length_take.
  replace (Z.of_nat (Z.to_nat n
                     `min` length (drop (Z.to_nat (fpos s)) (contents s))))
    with n by lia.
  by rewrite Z.eqb_refl.
Qed.

(** A call that leaves the stream good found it good and did its work. *)
Lemma seekp_good_inv refused off s :
  ios_good (seekp refused off s) = true →
  ios_good s = true ∧ fpos (seekp refused off s) = off ∧ 0 ≤ off.
Proof.
  unfold seekp. destruct (ios_fail s) eqn:Hf.
  - intros Hg. by rewrite (fails_not_good _ Hf) in Hg.
  - unfold pubseekpos. destruct refused; cbn [orb].
    + intros Hg. by rewrite set_failbit_not_good in Hg.
    + destruct (Z.ltb_spec off 0).
      * intros Hg. by rewrite set_failbit_not_good in Hg.
      * intros Hg. split; [exact Hg|]. split; [done | lia].
Qed.

Lemma seekg_good_inv refused off s :
  ios_good (seekg refused off s) = true →
  ios_fail s = false ∧ fpos (seekg refused off s) = off ∧ 0 ≤ off.
Proof.
  unfold seekg.
  replace (ios_fail (clear_eofbit s)) with (ios_fail s) by done.
  destruct (ios_fail s) eqn:Hf.
  - intros Hg. by rewrite set_failbit_not_good in Hg.
  - unfold pubseekpos. destruct refused; cbn [orb].
    + intros Hg. by rewrite set_failbit_not_good in Hg.
    + destruct (Z.ltb_spec off 0).
      * intros Hg. by rewrite set_failbit_not_good in Hg.
      * intros Hg. split; [done|]. split; [done | lia].
Qed.

Lemma ostream_write_not_fail_inv broken bytes s :
  eof_implies_fail s →
  ios_fail (ostream_write broken bytes s) = false →
  ios_good s = true ∧ broken = None ∧
  contents (ostream_write broken bytes s)
  = pwrite (Z.to_nat (fpos s)) bytes (contents s).
Proof.
  intros He. unfold ostream_write. destruct (ios_good s) eqn:Hg.
  - destruct broken as [k|]; [by rewrite set_badbit_fail|]. done.
  - intros Hf. by rewrite (not_good_fails s He Hg) in Hf.
Qed.

Lemma istream_read_good_inv broken n s :
  ios_good (istream_read broken n s).1 = true →
  ios_good s = true ∧
  (istream_read broken n s).2
  = take (Z.to_nat n) (drop (Z.to_nat (fpos s)) (contents s)) ∧
  Z.of_nat (length (istream_read broken n s).2) = n.
Proof.
  unfold istream_read. destruct (ios_good s) eqn:Hg.
  - destruct broken as [k|]; cbn [fst snd].
    + intros Hg'. by rewrite set_badbit_not_good in Hg'.
    + destruct (Z.eqb_spec
                  (Z.of_nat (length (take (Z.to_nat n)
                                       (drop (Z.to_nat (fpos s)) (contents s)))))
                  n) as [Heq|]; [done|].
      intros Hg'. by rewrite set_eofbit_failbit_not_good in Hg'.
  - cbn [fst]. intros Hg'. by rewrite set_failbit_not_good in Hg'.
Qed.

(** ** The member functions *)

(** A single-block function is its multi-block sibling at [count = 1]. *)
Lemma read_multiread BS e index data b h :
  0 ≤ BS < 2 ^ 32 →
  read BS e index data b h = multiread BS e index 1 data b h.
Proof.
  intros HBS. unfold read, multiread, blocksize.
  rewrite Z.mul_1_l, (size_t_of_small BS) by lia. done.
Qed.

Lemma write_multiwrite BS e index data b h :
  0 ≤ BS < 2 ^ 32 →
  write BS e index data b h = multiwrite BS e index 1 data b h.
Proof.
  intros HBS. unfold write, multiwrite, blocksize.
  rewrite Z.mul_1_l, (size_t_of_small BS) by lia. done.
Qed.

Section Transfers.

Context (BS : Z).
Hypothesis BS_range : 0 < BS < 2 ^ 32.
Hypothesis BS_even : (2 | BS).

Lemma bytes_even count : Nat.Even (Z.to_nat (count * BS)).
Proof using BS_even.
  clear BS_range. destruct BS_even as [k Hk].
  destruct (Z.le_gt_cases 0 (count * k)) as [Hpos|Hneg].
  - exists (Z.to_nat (count * k)). lia.
  - exists 0%nat. lia.
Qed.

(** [multiwrite] on an array that holds the [count * BS] bytes to write:
    the transformed bytes go to the stream, memory is as before. *)
Lemma multiwrite_spec e index count data b (h : heap) arr :
  0 ≤ count * BS < 2 ^ 63 →
  h !! data = Some arr →
  count * BS ≤ Z.of_nat (length arr) →
  multiwrite BS e index count data b h
  = Some (mk_BSwap16
            (ostream_write (xfer_fails e)
               (swap_pairs (take (Z.to_nat (count * BS)) arr))
               (seekp (seek_fails e)
                  (streamoff_of (size_t_of (index * BS))) (_file b)))
            (_nblocks b),
          h).
Proof using BS_range BS_even.
  intros Hn Hdata Hlen. unfold multiwrite, blocksize, new_array.
  rewrite (size_t_of_small (count * BS)) by lia.
  rewrite (streamoff_of_small (count * BS)) by lia.
  set (n := Z.to_nat (count * BS)).
  set (d := fresh (dom h)).
  assert (Hd : h !! d = None) by (apply not_elem_of_dom, is_fresh).
  assert (Hne : data ≠ d) by congruence.
  unfold memcpy. rewrite lookup_insert_eq, lookup_insert_ne, Hdata by done.
  rewrite decide_True by (rewrite length_replicate; lia).
  rewrite insert_insert_eq.
  rewrite drop_replicate, Nat.sub_diag. simpl.
  rewrite app_nil_r.
  assert (Htake : length (take n arr) = n) by (rewrite length_take; lia).
  rewrite (bswap16_swap_pairs d n _ (take n arr));
    [| by rewrite lookup_insert_eq | apply bytes_even | lia].
  rewrite insert_insert_eq.
  rewrite firstn_all2, skipn_all2 by lia. rewrite app_nil_r.
  destruct (count * BS <? 0) eqn:Hneg; [lia|].
  unfold write_from. rewrite lookup_insert_eq.
  rewrite decide_True by (rewrite swap_pairs_length; lia).
  rewrite firstn_all2 by (rewrite swap_pairs_length; lia).
  unfold delete_array. rewrite delete_insert_eq, delete_id by done.
  done.
Qed.

(** [multiread] into an array with room for [count * BS] bytes: the bytes
    delivered replace the head of the array, and the first [count * BS]
    bytes of the array are then transformed. *)
Lemma multiread_spec e index count data b (h : heap) arr :
  0 ≤ count * BS < 2 ^ 63 →
  h !! data = Some arr →
  count * BS ≤ Z.of_nat (length arr) →
  let r := istream_read (xfer_fails e) (count * BS)
             (seekg (seek_fails e)
                (streamoff_of (size_t_of (index * BS))) (_file b)) in
  let n := Z.to_nat (count * BS) in
  multiread BS e index count data b h
  = Some (mk_BSwap16 r.1 (_nblocks b),
          <[data := swap_pairs (take n (r.2 ++ drop (length r.2) arr))
                    ++ drop n arr]> h).
Proof using BS_range BS_even.
  intros Hn Hdata Hlen r n. subst n. unfold multiread, blocksize.
  rewrite (size_t_of_small (count * BS)) by lia.
  rewrite (streamoff_of_small (count * BS)) by lia.
  destruct (count * BS <? 0) eqn:Hneg; [lia|].
  unfold read_into. fold r. destruct r as [s' got] eqn:Hr. simpl.
  assert (Hgot : (length got ≤ Z.to_nat (count * BS))%nat).
  { assert (got = r.2) as -> by (by rewrite Hr). apply istream_read_length. }
  rewrite Hdata. rewrite decide_True by lia.
  rewrite (bswap16_swap_pairs data _ _ (got ++ drop (length got) arr));
    [| by rewrite lookup_insert_eq | apply bytes_even
     | rewrite length_app, length_drop; lia].
  rewrite insert_insert_eq. do 3 f_equal.
  rewrite drop_app_ge by lia. rewrite drop_drop. do 2 f_equal. lia.
Qed.

(** What was written is what is read back, on a stream that is good and
    with the system serving every request. *)
Lemma multi_round_trip index count c r b (h : heap) C B :
  good b = true →
  0 ≤ index * BS → 0 ≤ count * BS → index * BS + count * BS < 2 ^ 63 →
  h !! c = Some C → h !! r = Some B →
  count * BS ≤ Z.of_nat (length C) → count * BS ≤ Z.of_nat (length B) →
  ∃ b1 b2,
    multiwrite BS quiet index count c b h = Some (b1, h) ∧
    multiread BS quiet index count r b1 h
    = Some (b2, <[r := take (Z.to_nat (count * BS)) C
                       ++ drop (Z.to_nat (count * BS)) B]> h) ∧
    good b1 = true ∧ good b2 = true.
Proof using BS_range BS_even.
  intros Hg Hi Hc Hsum HC HB HlenC HlenB.
  rewrite (multiwrite_spec _ _ _ _ _ _ C) by (done || lia).
  eexists _, _. split; [reflexivity|].
  rewrite (multiread_spec _ _ _ _ _ _ B) by (done || lia).
  cbv zeta. cbn [_file _nblocks]. rewrite offset_small by lia.
  rewrite seekp_good by (done || lia).
  rewrite ostream_write_good by done.
  rewrite seekg_good by (done || lia). cbn [contents fpos].
  set (n := Z.to_nat (count * BS)).
  set (SW := swap_pairs (take n C)).
  assert (HSW : length SW = n)
    by (unfold SW; rewrite swap_pairs_length, length_take; lia).
  pose proof (pwrite_window (Z.to_nat (index * BS)) SW
                (contents (_file b))) as Hwin.
  rewrite HSW in Hwin.
  rewrite istream_read_good; cbn [contents fpos]; [| done | | lia].
  2:{ fold n. apply (f_equal length) in Hwin.
      rewrite length_take in Hwin. lia. }
  fold n. cbn [fst snd]. rewrite Hwin, HSW.
  rewrite take_app_length' by done.
  unfold SW. rewrite swap_pairs_involutive. done.
Qed.

(** Whatever the system does, on an instance where eofbit comes with
    failbit: when the stream is good after [multiwrite] and [multiread] of
    the same blocks, what was written is what has been read. *)
Lemma round_trip_while_good e1 e2 index count c r b (h : heap) C B b1 h1 b2 h2 :
  eof_implies_fail (_file b) →
  0 ≤ count * BS < 2 ^ 63 →
  h !! c = Some C → h !! r = Some B →
  count * BS ≤ Z.of_nat (length C) → count * BS ≤ Z.of_nat (length B) →
  multiwrite BS e1 index count c b h = Some (b1, h1) →
  multiread BS e2 index count r b1 h1 = Some (b2, h2) →
  good b2 = true →
  h2 !! r = Some (take (Z.to_nat (count * BS)) C
                  ++ drop (Z.to_nat (count * BS)) B).
Proof using BS_range BS_even.
  intros He Hn HC HB HlenC HlenB Hw Hr Hg.
  rewrite (multiwrite_spec _ _ _ _ _ _ C) in Hw by (done || lia).
  injection Hw as <- <-.
  rewrite (multiread_spec _ _ _ _ _ _ B) in Hr by (done || lia).
  cbv zeta in Hr. cbn [_file _nblocks] in Hr. injection Hr as <- <-.
  unfold good in Hg. cbn [_file] in Hg.
  set (off := streamoff_of (size_t_of (index * BS))) in *.
  set (n := Z.to_nat (count * BS)) in *.
  set (SW := swap_pairs (take n C)) in *.
  assert (HSW : length SW = n)
    by (unfold SW; rewrite swap_pairs_length, length_take; lia).
  destruct (istream_read_good_inv _ _ _ Hg) as (Hg1 & Hgot & Hfull).
  destruct (seekg_good_inv _ _ _ Hg1) as (Hf1 & Hpos1 & Hoff).
  destruct (ostream_write_not_fail_inv _ _ _ (seekp_eof _ _ _ He) Hf1)
    as (Hg0 & _ & Hcont).
  destruct (seekp_good_inv _ _ _ Hg0) as (_ & Hpos0 & _).
  rewrite Hpos1, seekg_contents, Hcont, Hpos0, seekp_contents in Hgot.
  fold n in Hgot. rewrite <- HSW in Hgot at 1. rewrite pwrite_window in Hgot.
  rewrite lookup_insert_eq, Hgot, HSW.
  rewrite take_app_length' by done.
  unfold SW. by rewrite swap_pairs_involutive.
Qed.

(** After a write that leaves the stream good, the file holds the
    transformed bytes at the offset of the block. *)
Lemma multiwrite_stored e index count data b (h : heap) arr :
  0 ≤ index * BS < 2 ^ 63 → 0 ≤ count * BS < 2 ^ 63 →
  h !! data = Some arr →
  count * BS ≤ Z.of_nat (length arr) →
  ∃ b',
    multiwrite BS e index count data b h = Some (b', h) ∧
    (good b' = true →
     take (Z.to_nat (count * BS))
       (drop (Z.to_nat (index * BS)) (contents (_file b')))
     = swap_pairs (take (Z.to_nat (count * BS)) arr)) ∧
    (good b = true → seek_fails e = false → xfer_fails e = None →
     good b' = true).
Proof using BS_range BS_even.
  intros Hi Hc Hdata Hlen.
  rewrite (multiwrite_spec _ _ _ _ _ _ arr) by (done || lia).
  eexists. split; [reflexivity|]. rewrite offset_small by lia.
  set (SW := swap_pairs (take (Z.to_nat (count * BS)) arr)).
  assert (HSW : length SW = Z.to_nat (count * BS))
    by (unfold SW; rewrite swap_pairs_length, length_take; lia).
  unfold good. simpl. split.
  - intros Hg. rewrite <- HSW.
    destruct (ios_good (seekp (seek_fails e) (index * BS) (_file b))) eqn:Hs.
    + unfold ostream_write in *. rewrite Hs in *.
      destruct (xfer_fails e) as [k|];
        [by rewrite set_badbit_not_good in Hg|].
      cbn [contents]. rewrite seekp_contents.
      assert (Hpos : fpos (seekp (seek_fails e) (index * BS) (_file b))
                     = index * BS).
      { revert Hs. unfold seekp. destruct (ios_fail (_file b)) eqn:Hf.
        - intros Hs. by rewrite (fails_not_good _ Hf) in Hs.
        - unfold pubseekpos.
          destruct (seek_fails e || (index * BS <? 0)); [|done].
          intros Hs. by rewrite set_failbit_not_good in Hs. }
      rewrite Hpos. apply pwrite_window.
    + unfold ostream_write in Hg. rewrite Hs in Hg. congruence.
  - intros Hg -> ->. rewrite seekp_good by (done || lia).
    by rewrite ostream_write_good.
Qed.

End Transfers.

(** [write] and [multiwrite] store through the scratch pointer only, and the
    scratch array is gone when they return: memory is as it was. *)
Lemma memcpy_frame dst src n (h h' : heap) l :
  memcpy dst src n h = Some h' → l ≠ dst → h' !! l = h !! l.
Proof.
  unfold memcpy. intros Hcp Hl.
  destruct (h !! dst) as [t|]; [|done]. destruct (h !! src) as [s|]; [|done].
  case_decide; [|done]. injection Hcp as <-. by rewrite lookup_insert_ne.
Qed.

Lemma scratch_released d data n x (h h2 h3 : heap) :
  h !! d = None →
  memcpy d data n (<[d := x]> h) = Some h2 →
  bswap16 d n h2 = Some h3 →
  delete_array d h3 = h.
Proof.
  intros Hd Hcp Hsw. unfold delete_array. apply map_eq. intros l.
  destruct (decide (l = d)) as [->|Hne].
  - by rewrite lookup_delete_eq.
  - rewrite lookup_delete_ne by done.
    rewrite (swap_loop_frame _ _ _ _ _ _ _ Hsw Hne).
    rewrite (memcpy_frame _ _ _ _ _ _ Hcp Hne).
    by rewrite lookup_insert_ne.
Qed.

Ltac scratch_run H :=
  unfold new_array in H;
  destruct (memcpy _ _ _ _) as [h2|] eqn:Hcp; [|done];
  destruct (bswap16 _ _ h2) as [h3|] eqn:Hsw; [|done];
  destruct (_ <? 0); [done|];
  destruct (write_from _ _ _ _ _); [|done];
  injection H as _ <-;
  eapply scratch_released; [apply not_elem_of_dom, is_fresh | done | done].

Lemma write_memory BS e index data b (h : heap) b' h' :
  write BS e index data b h = Some (b', h') → h' = h.
Proof. unfold write. intros H. scratch_run H. Qed.

Lemma multiwrite_memory BS e index count data b (h : heap) b' h' :
  multiwrite BS e index count data b h = Some (b', h') → h' = h.
Proof. unfold multiwrite. intros H. scratch_run H. Qed.

(** ** The properties of the specification *)

(** C7 (swap involution): on a buffer [B], for every even transfer size [n]
    that fits in it (so for [n = length B] when that is even), the loop of
    the source ends, exchanges the bytes at offsets [i] and [i+1] for every
    even [i < n], and run a second time gives [B] back. *)
Theorem swap_involution d n (h : heap) B :
  h !! d = Some B → Nat.Even n → (n ≤ length B)%nat →
  ∃ h1, bswap16 d n h = Some h1 ∧
        h1 !! d = Some (swap_pairs (take n B) ++ drop n B) ∧
        bswap16 d n h1 = Some h.
Proof.
  intros Hd Hev Hn. eexists. split; [by apply bswap16_swap_pairs|].
  split; [by rewrite lookup_insert_eq|].
  assert (Hlen : length (swap_pairs (take n B)) = n)
    by (rewrite swap_pairs_length, length_take; lia).
  rewrite (bswap16_swap_pairs d n _ (swap_pairs (take n B) ++ drop n B));
    [| by rewrite lookup_insert_eq | done | rewrite length_app, length_drop; lia].
  rewrite take_app_length', drop_app_length' by done.
  rewrite swap_pairs_involutive, take_drop, insert_insert_eq.
  by rewrite insert_id.
Qed.

Lemma swap_involution_witness :
  ∃ h1, bswap16 1%positive 4 {[ 1%positive := [x0a; x0b; x0c; x0d] ]} = Some h1 ∧
        h1 !! 1%positive
        = Some (swap_pairs (take 4 [x0a; x0b; x0c; x0d])
                ++ drop 4 [x0a; x0b; x0c; x0d]) ∧
        bswap16 1%positive 4 h1 = Some {[ 1%positive := [x0a; x0b; x0c; x0d] ]}.
Proof.
  apply (swap_involution 1%positive 4%nat
           {[ 1%positive := [x0a; x0b; x0c; x0d] ]} [x0a; x0b; x0c; x0d]).
  - reflexivity.
  - exists 2%nat. reflexivity.
  - simpl. lia.
Defined.

(** C8 (single block is [count = 1]): for every index and buffer, [read]
    is [multiread] with [count = 1] and [write] is [multiwrite] with
    [count = 1]: same new backend state (file included), same memory, and
    undefined on the same inputs. *)
Theorem single_block_is_count_1 BS e index data b (h : heap) :
  0 ≤ BS < 2 ^ 32 →
  read BS e index data b h = multiread BS e index 1 data b h ∧
  write BS e index data b h = multiwrite BS e index 1 data b h.
Proof.
  intros HBS. split; [by apply read_multiread | by apply write_multiwrite].
Qed.

Lemma single_block_is_count_1_witness :
  read 512 quiet 3 1%positive
    (mk_BSwap16 (mk_fstream [] 0 false false false) 0) ∅
  = multiread 512 quiet 3 1 1%positive
      (mk_BSwap16 (mk_fstream [] 0 false false false) 0) ∅ ∧
  write 512 quiet 3 1%positive
    (mk_BSwap16 (mk_fstream [] 0 false false false) 0) ∅
  = multiwrite 512 quiet 3 1 1%positive
      (mk_BSwap16 (mk_fstream [] 0 false false false) 0) ∅.
Proof.
  apply (single_block_is_count_1 512 quiet 3 1%positive
           (mk_BSwap16 (mk_fstream [] 0 false false false) 0) ∅).
  lia.
Defined.

(** C10 (caller's buffer): whenever [write] or [multiwrite] returns, the
    caller's array is as it was before the call; so is the rest of memory,
    the scratch array being deleted. *)
Theorem write_keeps_caller_buffer BS e index count data b (h : heap) b' h' :
  write BS e index data b h = Some (b', h') ∨
  multiwrite BS e index count data b h = Some (b', h') →
  h' !! data = h !! data ∧ h' = h.
Proof.
  intros [Hw|Hw].
  - apply write_memory in Hw. by subst.
  - apply multiwrite_memory in Hw. by subst.
Qed.

Lemma write_keeps_caller_buffer_witness :
  write 4 quiet 0 1%positive demo_backend demo_heap
  = Some (demo_written, demo_heap) ∧
  demo_heap !! 1%positive = demo_heap !! 1%positive ∧ demo_heap = demo_heap.
Proof.
  assert (Hrun : write 4 quiet 0 1%positive demo_backend demo_heap
                 = Some (demo_written, demo_heap)) by (vm_compute; reflexivity).
  split; [exact Hrun|].
  apply (write_keeps_caller_buffer 4 quiet 0 1 1%positive demo_backend
           demo_heap demo_written demo_heap).
  left. exact Hrun.
Defined.

(** In-range blocks of an instance whose file covers its blocks lie below
    the largest offset of the system. *)
Lemma in_range_offsets BS b index count :
  0 < BS → covers BS b → off_t_sized b →
  0 ≤ index → 0 ≤ count → index + count ≤ numblocks b →
  0 ≤ index * BS ∧ 0 ≤ count * BS ∧ index * BS + count * BS < 2 ^ 63.
Proof.
  unfold covers, off_t_sized, blocksize. intros HBS Hcov Hoff Hi Hc Hin.
  assert ((index + count) * BS ≤ numblocks b * BS)
    by (apply Z.mul_le_mono_nonneg_r; lia).
  nia.
Qed.

(** C1 (read/write round-trip): on a healthy instance whose file covers
    its blocks, with the system serving every request, [write] of an
    in-range block from a buffer [C] followed by [read] of that block into a
    buffer [B], both of at least [BS] bytes, returns and leaves in [B] the
    first [BS] bytes of [C]: [B] is [C] when both have [BS] bytes.  Likewise
    [multiwrite] and [multiread] of an in-range range of [count] blocks with
    buffers of [count * BS] bytes, whatever [count]. *)
Theorem read_write_round_trip BS b (h : heap) :
  0 < BS < 2 ^ 32 → (2 | BS) →
  good b = true → covers BS b → off_t_sized b →
  (∀ index c r C B,
     0 ≤ index < numblocks b →
     h !! c = Some C → h !! r = Some B →
     BS ≤ Z.of_nat (length C) → BS ≤ Z.of_nat (length B) →
     ∃ b1 h1 b2 h2 B',
       write BS quiet index c b h = Some (b1, h1) ∧
       read BS quiet index r b1 h1 = Some (b2, h2) ∧
       h2 !! r = Some B' ∧
       take (Z.to_nat BS) B' = take (Z.to_nat BS) C ∧
       (Z.of_nat (length C) = BS → Z.of_nat (length B) = BS → B' = C)) ∧
  (∀ index count c r C B,
     0 ≤ index → 0 ≤ count → index + count ≤ numblocks b →
     h !! c = Some C → h !! r = Some B →
     count * BS ≤ Z.of_nat (length C) → count * BS ≤ Z.of_nat (length B) →
     ∃ b1 h1 b2 h2 B',
       multiwrite BS quiet index count c b h = Some (b1, h1) ∧
       multiread BS quiet index count r b1 h1 = Some (b2, h2) ∧
       h2 !! r = Some B' ∧
       take (Z.to_nat (count * BS)) B' = take (Z.to_nat (count * BS)) C ∧
       (Z.of_nat (length C) = count * BS →
        Z.of_nat (length B) = count * BS → B' = C)).
Proof.
  intros HBS Hev Hg Hcov Hoff.
  assert (Hmulti : ∀ index count c r C B,
     0 ≤ index → 0 ≤ count → index + count ≤ numblocks b →
     h !! c = Some C → h !! r = Some B →
     count * BS ≤ Z.of_nat (length C) → count * BS ≤ Z.of_nat (length B) →
     ∃ b1 h1 b2 h2 B',
       multiwrite BS quiet index count c b h = Some (b1, h1) ∧
       multiread BS quiet index count r b1 h1 = Some (b2, h2) ∧
       h2 !! r = Some B' ∧
       take (Z.to_nat (count * BS)) B' = take (Z.to_nat (count * BS)) C ∧
       (Z.of_nat (length C) = count * BS →
        Z.of_nat (length B) = count * BS → B' = C)).
  { intros index count c r C B Hi Hc Hin HC HB HlenC HlenB.
    destruct (in_range_offsets BS b index count) as (Ho1 & Ho2 & Ho3);
      [lia | done..|].
    destruct (multi_round_trip BS HBS Hev index count c r b h C B)
      as (b1 & b2 & Hw & Hr & _ & _); [done | lia.. | done | done | lia | lia |].
    exists b1, h, b2. eexists _, _. split; [done|]. split; [done|].
    split; [by rewrite lookup_insert_eq|]. split.
    - rewrite take_app_length'; [done|]. rewrite length_take. lia.
    - intros HeqC HeqB. rewrite firstn_all2, skipn_all2 by lia.
      apply app_nil_r. }
  split; [|done].
  intros index c r C B Hi HC HB HlenC HlenB.
  rewrite write_multiwrite by lia.
  destruct (Hmulti index 1 c r C B)
    as (b1 & h1 & b2 & h2 & B' & Hw & Hr & Hres & Htake & Heq);
    [lia | lia | lia | done | done | lia | lia |].
  rewrite Z.mul_1_l in Htake, Heq.
  exists b1, h1, b2, h2, B'. by rewrite read_multiread by lia.
Qed.

Lemma read_write_round_trip_witness :
  (0 < 4 < 2 ^ 32 ∧ (2 | 4) ∧ good demo_backend = true ∧
   covers 4 demo_backend ∧ off_t_sized demo_backend) ∧
  (∀ index c r C B,
     0 ≤ index < numblocks demo_backend →
     demo_heap !! c = Some C → demo_heap !! r = Some B →
     4 ≤ Z.of_nat (length C) → 4 ≤ Z.of_nat (length B) →
     ∃ b1 h1 b2 h2 B',
       write 4 quiet index c demo_backend demo_heap = Some (b1, h1) ∧
       read 4 quiet index r b1 h1 = Some (b2, h2) ∧
       h2 !! r = Some B' ∧
       take (Z.to_nat 4) B' = take (Z.to_nat 4) C ∧
       (Z.of_nat (length C) = 4 → Z.of_nat (length B) = 4 → B' = C)) ∧
  (∀ index count c r C B,
     0 ≤ index → 0 ≤ count → index + count ≤ numblocks demo_backend →
     demo_heap !! c = Some C → demo_heap !! r = Some B →
     count * 4 ≤ Z.of_nat (length C) → count * 4 ≤ Z.of_nat (length B) →
     ∃ b1 h1 b2 h2 B',
       multiwrite 4 quiet index count c demo_backend demo_heap = Some (b1, h1) ∧
       multiread 4 quiet index count r b1 h1 = Some (b2, h2) ∧
       h2 !! r = Some B' ∧
       take (Z.to_nat (count * 4)) B' = take (Z.to_nat (count * 4)) C ∧
       (Z.of_nat (length C) = count * 4 →
        Z.of_nat (length B) = count * 4 → B' = C)).
Proof.
  assert (H4 : 0 < 4 < 2 ^ 32) by lia.
  assert (Hev : (2 | 4)) by (exists 2; reflexivity).
  assert (Hg : good demo_backend = true) by reflexivity.
  assert (Hcov : covers 4 demo_backend) by (vm_compute; discriminate).
  assert (Hoff : off_t_sized demo_backend) by (vm_compute; reflexivity).
  split; [done|].
  exact (read_write_round_trip 4 demo_backend demo_heap H4 Hev Hg Hcov Hoff).
Defined.

(** C2 (on-disk representation): [write (index, C)] returns, and when it
    has succeeded (the stream is good afterwards, which is the case on a
    healthy instance when the system serves the requests) the file holds, at
    offsets [index * BS + i] and [index * BS + i + 1] for every even
    [i < BS], the bytes [C[i+1]] and [C[i]].  Concretely, with block size 4
    and two blocks, writing block 0 with [01 02 03 04] leaves [02 01 04 03]
    at the head of the file, and reading block 0 returns [01 02 03 04]. *)
Theorem on_disk_representation :
  (∀ BS e index data b (h : heap) C,
     0 < BS < 2 ^ 32 → (2 | BS) →
     0 ≤ index → index * BS < 2 ^ 63 →
     h !! data = Some C → BS ≤ Z.of_nat (length C) →
     ∃ b',
       write BS e index data b h = Some (b', h) ∧
       (good b' = true →
        ∀ i : nat, Nat.Even i → Z.of_nat i + 1 < BS →
          contents (_file b') !! (Z.to_nat (index * BS) + i)%nat
          = C !! (i + 1)%nat ∧
          contents (_file b') !! (Z.to_nat (index * BS) + i + 1)%nat
          = C !! i) ∧
       (good b = true → seek_fails e = false → xfer_fails e = None →
        good b' = true)) ∧
  (BSwap16_ctor 4 demo_disk quiet "disk" 2 = Constructed demo_backend None ∧
   demo_heap !! 1%positive = Some [x01; x02; x03; x04] ∧
   ∃ b1 b2,
     write 4 quiet 0 1%positive demo_backend demo_heap = Some (b1, demo_heap) ∧
     contents (_file b1) = [x02; x01; x04; x03; x00; x00; x00; x00] ∧
     read 4 quiet 0 2%positive b1 demo_heap
     = Some (b2, <[2%positive := [x01; x02; x03; x04]]> demo_heap)).
Proof.
  split.
  - intros BS e index data b h C HBS Hev Hi Hoff Hdata Hlen.
    destruct (multiwrite_stored BS HBS Hev e index 1 data b h C)
      as (b' & Hw & Hstored & Hgood); [nia | lia | done | lia |].
    exists b'. rewrite write_multiwrite by lia.
    split; [done|]. split; [|done].
    intros Hg i Hiev Hilt. specialize (Hstored Hg).
    rewrite Z.mul_1_l in Hstored.
    pose proof (swap_pairs_lookup (take (Z.to_nat BS) C) i Hiev) as Hsw.
    rewrite <- Hstored in Hsw at 1 2.
    rewrite !lookup_take_lt, !lookup_drop in Hsw by lia.
    rewrite <- Nat.add_assoc.
    apply Hsw. rewrite length_take. lia.
  - split; [by vm_compute|]. split; [by vm_compute|].
    eexists _, _. split; [by vm_compute|]. split; by vm_compute.
Qed.

Lemma on_disk_representation_witness :
  ∃ b',
    write 4 quiet 1 1%positive demo_backend demo_heap = Some (b', demo_heap) ∧
    (good b' = true →
     ∀ i : nat, Nat.Even i → Z.of_nat i + 1 < 4 →
       contents (_file b') !! (Z.to_nat (1 * 4) + i)%nat
       = [x01; x02; x03; x04] !! (i + 1)%nat ∧
       contents (_file b') !! (Z.to_nat (1 * 4) + i + 1)%nat
       = [x01; x02; x03; x04] !! i) ∧
    (good demo_backend = true → seek_fails quiet = false →
     xfer_fails quiet = None → good b' = true).
Proof.
  apply (proj1 on_disk_representation 4 quiet 1 1%positive demo_backend
           demo_heap [x01; x02; x03; x04]).
  - lia.
  - exists 2. reflexivity.
  - lia.
  - lia.
  - reflexivity.
  - simpl. lia.
Defined.

(** ** The constructor *)

Lemma streamoff_of_range z : - 2 ^ 63 ≤ streamoff_of z < 2 ^ 63.
Proof.
  unfold streamoff_of.
  pose proof (Z.mod_pos_bound (z + 2 ^ 63) (2 ^ 64)). lia.
Qed.

(** The first half of the constructor: a file that opens is measured, a
    file that does not is created when a size is given. *)
Lemma ctor_opened BS fs e fname nblocks c :
  openable fs = Some c → Z.of_nat (length c) < 2 ^ 63 →
  BSwap16_ctor BS fs e fname nblocks
  = resolve BS e nblocks
      (mk_fstream c (Z.of_nat (length c) + 0) false false false)
      (Z.of_nat (length c)).
Proof.
  intros Hopen Hsize. unfold BSwap16_ctor, fstream_ctor. rewrite Hopen.
  cbn [ios_fail failbit badbit orb negb tellg ios_good eofbit andb fpos].
  unfold seekg_end, clear_eofbit.
  cbn [ios_fail failbit badbit orb contents fpos eofbit].
  unfold pubseekpos. cbn [orb contents eofbit failbit badbit].
  destruct (Z.ltb_spec (Z.of_nat (length c) + 0) 0) as [|_]; [lia|].
  cbn [tellg ios_good eofbit failbit badbit negb andb fpos].
  f_equal. rewrite streamoff_of_small; lia.
Qed.

Lemma ctor_created BS fs e fname nblocks :
  openable fs = None → nblocks ≠ 0 → creatable fs = true →
  BSwap16_ctor BS fs e fname nblocks
  = resolve BS e nblocks (mk_fstream [] 0 false false false) 0.
Proof.
  intros Hopen Hn Hcreate. unfold BSwap16_ctor, fstream_ctor. rewrite Hopen.
  cbn [ios_fail failbit badbit orb negb].
  destruct (Z.eqb_spec nblocks 0) as [|_]; [done|].
  unfold fstream_open_trunc. by rewrite Hcreate.
Qed.

Lemma ctor_missing BS fs e fname nblocks :
  openable fs = None → nblocks = 0 ∨ creatable fs = false →
  ∃ diagnostic, BSwap16_ctor BS fs e fname nblocks = Exited 1 diagnostic.
Proof.
  intros Hopen Hwhy. unfold BSwap16_ctor, fstream_ctor. rewrite Hopen.
  cbn [ios_fail failbit badbit orb negb].
  destruct (Z.eqb_spec nblocks 0) as [|Hn]; [by eexists|].
  destruct Hwhy as [|Hcreate]; [done|].
  unfold fstream_open_trunc. rewrite Hcreate. by eexists.
Qed.

(** The second half: on a stream that is good, with [actsize] the size of
    its file, the constructor exits when the file is empty and no size is
    given, and gives an instance otherwise, which is good when the system
    serves the requests that grow the file. *)
Lemma resolve_outcome BS e nblocks f actsize :
  ios_good f = true → 0 ≤ actsize →
  (nblocks = 0 ∧ actsize = 0 ∧
   ∃ diagnostic, resolve BS e nblocks f actsize = Exited 1 diagnostic) ∨
  (¬ (nblocks = 0 ∧ actsize = 0) ∧
   ∃ b w, resolve BS e nblocks f actsize = Constructed b w ∧
          (seek_fails e = false → xfer_fails e = None → good b = true)).
Proof.
  intros Hg Hact. unfold resolve.
  destruct (Z.eqb_spec nblocks 0) as [Hn|Hn].
  - destruct (Z.leb_spec actsize 0) as [Hle|Hgt].
    + left. split; [done|]. split; [lia|]. by eexists.
    + right. split; [lia|]. by eexists _, _.
  - right. split; [tauto|].
    set (totsize := streamoff_of (size_t_of (nblocks * blocksize BS))).
    destruct (Z.ltb_spec actsize totsize) as [Hlt|Hge]; [|by eexists _, _].
    eexists _, _. split; [done|]. intros -> ->. unfold good, ostream_put.
    cbn [_file]. pose proof (streamoff_of_range (size_t_of (nblocks * blocksize BS))).
    rewrite streamoff_of_small by (fold totsize; lia).
    rewrite seekp_good by (done || lia).
    by rewrite ostream_write_good.
Qed.

(** The constructor either exits with status 1 after a diagnostic, and that
    exactly in the three fatal cases, or it gives an instance, which is good
    when the system serves the requests that grow the file. *)
Lemma ctor_outcome BS fs e fname nblocks :
  off_t_sized_fs fs →
  (fatal fs nblocks ∧
   ∃ diagnostic, BSwap16_ctor BS fs e fname nblocks = Exited 1 diagnostic) ∨
  (¬ fatal fs nblocks ∧
   ∃ b w, BSwap16_ctor BS fs e fname nblocks = Constructed b w ∧
          (seek_fails e = false → xfer_fails e = None → good b = true)).
Proof.
  intros Hsize. unfold fatal.
  destruct (openable fs) as [c|] eqn:Hopen.
  - rewrite (ctor_opened BS fs e fname nblocks c) by auto.
    destruct (resolve_outcome BS e nblocks
                (mk_fstream c (Z.of_nat (length c) + 0) false false false)
                (Z.of_nat (length c)))
      as [(Hn & Hc & Hex)|(Hnot & Hex)]; [done | lia | |].
    + left. split; [|done]. right. right. split; [|done].
      f_equal. apply length_zero_iff_nil. lia.
    + right. split; [|done].
      intros [[? _]|[[? _]|[Hc Hn]]]; try done.
      apply Hnot. split; [done|]. by injection Hc as ->.
  - destruct (Z.eq_dec nblocks 0) as [Hn|Hn].
    + left. split; [by left|]. apply ctor_missing; auto.
    + destruct (creatable fs) eqn:Hcreate.
      * right. split; [intros [[_ ?]|[[_ ?]|[? _]]]; done|].
        rewrite ctor_created by done.
        destruct (resolve_outcome BS e nblocks
                    (mk_fstream [] 0 false false false) 0)
          as [(? & _)|(_ & Hex)]; done.
      * left. split; [right; by left|]. apply ctor_missing; auto.
Qed.

(** ** Sessions *)

Lemma serve_stream BS e r b (h : heap) b' h' :
  serve BS e r b h = Some (b', h') →
  _nblocks b' = _nblocks b ∧ stream_after BS e r (_file b) (_file b').
Proof.
  destruct r as [index data|index data|index count data|index count data| |index count];
    unfold stream_after; cbn [serve]; intros Hrun.
  - unfold read, read_into, blocksize in Hrun.
    destruct (_ <? 0); [done|]. destruct (istream_read _ _ _) as [s' got] eqn:Hrd.
    destruct (h !! data); [|done]. case_decide; [|done].
    destruct (bswap16 _ _ _); [|done]. injection Hrun as <- <-.
    done.
  - unfold write, write_from, new_array, blocksize in Hrun.
    destruct (memcpy _ _ _ _) as [h2|]; [|done].
    destruct (bswap16 _ _ h2) as [h3|]; [|done].
    destruct (_ <? 0); [done|]. destruct (h3 !! _); [|done].
    case_decide; [|done]. injection Hrun as <- <-.
    cbn [_file _nblocks]. split; [done | by eexists].
  - unfold multiread, read_into, blocksize in Hrun.
    destruct (_ <? 0); [done|]. destruct (istream_read _ _ _) as [s' got] eqn:Hrd.
    destruct (h !! data); [|done]. case_decide; [|done].
    destruct (bswap16 _ _ _); [|done]. injection Hrun as <- <-.
    done.
  - unfold multiwrite, write_from, new_array, blocksize in Hrun.
    destruct (memcpy _ _ _ _) as [h2|]; [|done].
    destruct (bswap16 _ _ h2) as [h3|]; [|done].
    destruct (_ <? 0); [done|]. destruct (h3 !! _); [|done].
    case_decide; [|done]. injection Hrun as <- <-.
    cbn [_file _nblocks]. split; [done | by eexists].
  - by injection Hrun as <- <-.
  - by injection Hrun as <- <-.
Qed.

(** [ios_fail] latches over a request, and eofbit stays with failbit. *)
Lemma stream_after_fail BS e r s s' :
  stream_after BS e r s s' → ios_fail s = true → ios_fail s' = true.
Proof.
  destruct r; simpl.
  - intros -> Hf. by apply istream_read_fail, seekg_fail.
  - intros [bytes ->] Hf. by apply ostream_write_fail, seekp_fail.
  - intros -> Hf. by apply istream_read_fail, seekg_fail.
  - intros [bytes ->] Hf. by apply ostream_write_fail, seekp_fail.
  - intros -> Hf. by apply ostream_flush_fail.
  - by intros ->.
Qed.

Lemma stream_after_eof BS e r s s' :
  stream_after BS e r s s' → eof_implies_fail s → eof_implies_fail s'.
Proof.
  destruct r; simpl.
  - intros -> He. apply istream_read_eof, seekg_eof.
  - intros [bytes ->] He. by apply ostream_write_eof, seekp_eof.
  - intros -> He. apply istream_read_eof, seekg_eof.
  - intros [bytes ->] He. by apply ostream_write_eof, seekp_eof.
  - intros -> He. by apply ostream_flush_eof.
  - by intros ->.
Qed.

Lemma serve_all_fail BS rs :
  ∀ b (h : heap) b' h',
    serve_all BS rs b h = Some (b', h') →
    ios_fail (_file b) = true → ios_fail (_file b') = true.
Proof.
  induction rs as [|[e r] rs IH]; intros b h b' h' Hrun Hf; simpl in Hrun.
  - by injection Hrun as <- <-.
  - destruct (serve BS e r b h) as [[b1 h1]|] eqn:Hstep; [|done].
    apply (IH _ _ _ _ Hrun).
    destruct (serve_stream _ _ _ _ _ _ _ Hstep) as [_ Hs].
    by apply (stream_after_fail _ _ _ _ _ Hs).
Qed.

Lemma resolve_eof BS e nblocks f actsize b w :
  eof_implies_fail f →
  resolve BS e nblocks f actsize = Constructed b w →
  eof_implies_fail (_file b).
Proof.
  unfold resolve. intros He.
  destruct (nblocks =? 0).
  - destruct (actsize <=? 0); [done|]. by intros [= <- _].
  - destruct (actsize <? _); intros [= <- _]; [|done].
    by apply ostream_write_eof, seekp_eof.
Qed.

Lemma ctor_eof BS fs e fname nblocks b w :
  BSwap16_ctor BS fs e fname nblocks = Constructed b w →
  eof_implies_fail (_file b).
Proof.
  unfold BSwap16_ctor.
  destruct (negb (ios_fail (fstream_ctor fs))).
  - destruct (tellg (fstream_ctor fs)) as [start f1].
    destruct (tellg (seekg_end false 0 f1)) as [stop f3] eqn:Htell.
    apply resolve_eof.
    assert (f3 = (tellg (seekg_end false 0 f1)).2) as -> by (by rewrite Htell).
    unfold tellg. destruct (ios_good _) eqn:Hg; [|done].
    by apply good_eof_implies_fail.
  - destruct (nblocks =? 0); [done|].
    destruct (ios_fail (fstream_open_trunc fs (fstream_ctor fs))) eqn:Hf; [done|].
    apply resolve_eof. revert Hf. unfold fstream_open_trunc.
    by destruct (creatable fs).
Qed.

(** On every instance a session can see, eofbit comes with failbit: a
    stream that is not good has failed, for good. *)
Lemma reachable_eof BS b : reachable BS b → eof_implies_fail (_file b).
Proof.
  induction 1 as [fs e fname nblocks b w Hctor|e r b h b' h' _ IH Hstep].
  - by eapply ctor_eof.
  - destruct (serve_stream _ _ _ _ _ _ _ Hstep) as [_ Hs].
    by apply (stream_after_eof _ _ _ _ _ Hs).
Qed.

(** No member function throws or returns an error code: within the
    contract of the caller a request returns, whatever the system does. *)
Lemma serve_total BS e r b (h : heap) :
  0 < BS < 2 ^ 32 → (2 | BS) → request_ok BS r h →
  ∃ b' h', serve BS e r b h = Some (b', h').
Proof.
  intros HBS Hev Hok.
  destruct r as [index data|index data|index count data|index count data| |index count];
    cbn [serve request_ok request_offset request_bytes] in *;
    try (by eexists _, _);
    destruct Hok as (_ & Hn & arr & Hdata & Hlen).
  - rewrite read_multiread by lia.
    rewrite (multiread_spec BS HBS Hev _ _ _ _ _ _ arr) by (done || lia).
    by eexists _, _.
  - rewrite write_multiwrite by lia.
    rewrite (multiwrite_spec BS HBS Hev _ _ _ _ _ _ arr) by (done || lia).
    by eexists _, _.
  - rewrite (multiread_spec BS HBS Hev _ _ _ _ _ _ arr) by (done || lia).
    by eexists _, _.
  - rewrite (multiwrite_spec BS HBS Hev _ _ _ _ _ _ arr) by (done || lia).
    by eexists _, _.
Qed.

Lemma not_fail_good s :
  eof_implies_fail s → ios_fail s = false → ios_good s = true.
Proof.
  intros He Hf. destruct (ios_good s) eqn:Hg; [done|].
  by rewrite (not_good_fails s He Hg) in Hf.
Qed.

(** A read that asks for bytes the file does not have sets failbit. *)
Lemma istream_read_short broken n s :
  0 ≤ fpos s → 0 < n → Z.of_nat (length (contents s)) < fpos s + n →
  ios_fail (istream_read broken n s).1 = true.
Proof.
  intros Hpos Hn Hshort. unfold istream_read.
  destruct (ios_good s); [|done].
  destruct broken as [k|]; [apply set_badbit_fail|]. cbn [fst].
  rewrite length_take, length_drop.
  by destruct (Z.eqb_spec
                 (Z.of_nat (Z.to_nat n
                            `min` (length (contents s) - Z.to_nat (fpos s))))
                 n); [lia|].
Qed.

(** A failure during a read ends with the stream failed. *)
Lemma read_failure_fails sf xf off n s :
  eof_implies_fail s → 0 ≤ off →
  sf = true ∨ xf ≠ None ∨
    (0 < n ∧ Z.of_nat (length (contents s)) < off + n) →
  ios_fail (istream_read xf n (seekg sf off s)).1 = true.
Proof.
  intros He Hoff Hwhy. destruct (ios_fail s) eqn:Hf.
  { by apply istream_read_fail, seekg_fail. }
  pose proof (not_fail_good s He Hf) as Hg.
  destruct sf.
  { apply istream_read_fail. unfold seekg.
    replace (ios_fail (clear_eofbit s)) with false by done.
    unfold pubseekpos. done. }
  rewrite seekg_good by done.
  destruct Hwhy as [?|[Hxf|[Hn Hshort]]]; [done| |].
  - unfold istream_read. cbn [ios_good eofbit failbit badbit negb andb].
    destruct xf; [apply set_badbit_fail | done].
  - by apply istream_read_short.
Qed.

(** A failure during a write ends with the stream failed. *)
Lemma write_failure_fails sf xf off bytes s :
  eof_implies_fail s → 0 ≤ off →
  sf = true ∨ xf ≠ None →
  ios_fail (ostream_write xf bytes (seekp sf off s)) = true.
Proof.
  intros He Hoff Hwhy. destruct (ios_fail s) eqn:Hf.
  { by apply ostream_write_fail, seekp_fail. }
  pose proof (not_fail_good s He Hf) as Hg.
  destruct sf.
  { apply ostream_write_fail. unfold seekp. rewrite Hf. done. }
  rewrite seekp_good by done.
  destruct Hwhy as [?|Hxf]; [done|].
  unfold ostream_write. cbn [ios_good eofbit failbit badbit negb andb].
  destruct xf; [apply set_badbit_fail | done].
Qed.

Lemma failure_fails BS e r b (h : heap) b1 h1 :
  0 < BS < 2 ^ 32 → eof_implies_fail (_file b) →
  request_ok BS r h → io_failure BS e r b →
  serve BS e r b h = Some (b1, h1) →
  ios_fail (_file b1) = true.
Proof.
  intros HBS He Hok [Htr Hwhy] Hrun.
  destruct (serve_stream _ _ _ _ _ _ _ Hrun) as [_ Hs].
  unfold file_size in Hwhy.
  destruct r as [index data|index data|index count data|index count data| |index count];
    try done;
    cbn [stream_after request_ok request_offset request_bytes is_read] in *;
    destruct Hok as (Hoff & Hn & _).
  - rewrite Hs, offset_small, streamoff_of_small by lia.
    apply read_failure_fails; [done | lia | tauto].
  - destruct Hs as [bytes ->]. rewrite offset_small by lia.
    apply write_failure_fails; [done | lia |].
    destruct Hwhy as [?|[?|[? _]]]; auto.
  - rewrite Hs, !offset_small by lia.
    apply read_failure_fails; [done | lia | tauto].
  - destruct Hs as [bytes ->]. rewrite offset_small by lia.
    apply write_failure_fails; [done | lia |].
    destruct Hwhy as [?|[?|[? _]]]; auto.
Qed.

(** C9 (health latching): on an instance a session can see, a transfer
    request during which an I/O failure occurs (the system refuses the seek
    or breaks the transfer, or a read asks for bytes past the end of the
    file) returns all the same, with no error code, and leaves [good ()]
    false; [good ()] is false after every sequence of requests that
    follows. *)
Theorem health_latches BS e r b (h : heap) rs :
  0 < BS < 2 ^ 32 → (2 | BS) →
  reachable BS b → request_ok BS r h → io_failure BS e r b →
  ∃ b1 h1,
    serve BS e r b h = Some (b1, h1) ∧
    good b1 = false ∧
    ∀ b2 h2, serve_all BS rs b1 h1 = Some (b2, h2) → good b2 = false.
Proof.
  intros HBS Hev Hreach Hok Hfail.
  destruct (serve_total BS e r b h HBS Hev Hok) as (b1 & h1 & Hrun).
  exists b1, h1. split; [done|].
  assert (Hf : ios_fail (_file b1) = true)
    by (eapply failure_fails; eauto using reachable_eof).
  split; [by apply fails_not_good|].
  intros b2 h2 Hrest. apply fails_not_good.
  by eapply serve_all_fail.
Qed.

Lemma health_latches_witness :
  (0 < 4 < 2 ^ 32 ∧ (2 | 4) ∧ reachable 4 demo_backend ∧
   request_ok 4 (Read 2 2%positive) demo_heap ∧
   io_failure 4 quiet (Read 2 2%positive) demo_backend) ∧
  ∃ b1 h1,
    serve 4 quiet (Read 2 2%positive) demo_backend demo_heap = Some (b1, h1) ∧
    good b1 = false ∧
    ∀ b2 h2,
      serve_all 4 [(quiet, Write 0 1%positive); (quiet, Flush)] b1 h1
      = Some (b2, h2) →
      good b2 = false.
Proof.
  assert (H4 : 0 < 4 < 2 ^ 32) by lia.
  assert (Hev : (2 | 4)) by (exists 2; reflexivity).
  assert (Hreach : reachable 4 demo_backend).
  { apply (reachable_ctor 4 demo_disk quiet "disk" 2 demo_backend None).
    vm_compute. reflexivity. }
  assert (Hok : request_ok 4 (Read 2 2%positive) demo_heap).
  { simpl. split; [lia|]. split; [lia|].
    exists [xaa; xbb; xcc; xdd]. split; [reflexivity | simpl; lia]. }
  assert (Hfail : io_failure 4 quiet (Read 2 2%positive) demo_backend).
  { split; [reflexivity|]. right. right. split; [reflexivity|].
    split; [simpl; lia | vm_compute; reflexivity]. }
  split; [done|].
  exact (health_latches 4 quiet (Read 2 2%positive) demo_backend demo_heap
           [(quiet, Write 0 1%positive); (quiet, Flush)]
           H4 Hev Hreach Hok Hfail).
Defined.

(** ** Sizes: what the constructor resolves, what requests keep *)

Lemma ctor_infer BS fs e fname c :
  0 < BS → openable fs = Some c → 0 < Z.of_nat (length c) < 2 ^ 63 →
  BSwap16_ctor BS fs e fname 0
  = Constructed
      (mk_BSwap16 (mk_fstream c (Z.of_nat (length c) + 0) false false false)
         (int_of (Z.of_nat (length c) / BS)))
      None.
Proof.
  intros HBS Hopen Hsize. rewrite (ctor_opened BS fs e fname 0 c) by (done || lia).
  unfold resolve, blocksize. cbn [Z.eqb].
  destruct (Z.leb_spec (Z.of_nat (length c)) 0) as [|_]; [lia|].
  by rewrite size_t_of_small by lia.
Qed.

Lemma resolve_grow BS nblocks f actsize :
  ios_good f = true → 0 ≤ actsize < nblocks * BS → nblocks * BS < 2 ^ 63 →
  resolve BS quiet nblocks f actsize
  = Constructed
      (mk_BSwap16
         (mk_fstream (pwrite (Z.to_nat (nblocks * BS - 1)) [x00] (contents f))
            (nblocks * BS) false false false)
         (int_of nblocks))
      (Some (actsize, nblocks * BS)).
Proof.
  intros Hg Hact Htot. unfold resolve, blocksize.
  destruct (Z.eqb_spec nblocks 0) as [|_]; [lia|].
  rewrite offset_small by lia.
  destruct (Z.ltb_spec actsize (nblocks * BS)) as [_|]; [|lia].
  rewrite streamoff_of_small by lia. unfold ostream_put. cbn [quiet seek_fails xfer_fails].
  rewrite seekp_good by (done || lia). rewrite ostream_write_good by done.
  cbn [contents fpos length]. do 3 f_equal. lia.
Qed.

Lemma resolve_keep BS e nblocks f actsize :
  nblocks ≠ 0 → 0 ≤ nblocks * BS ≤ actsize → nblocks * BS < 2 ^ 63 →
  resolve BS e nblocks f actsize = Constructed (mk_BSwap16 f (int_of nblocks)) None.
Proof.
  intros Hn Hact Htot. unfold resolve, blocksize.
  destruct (Z.eqb_spec nblocks 0) as [|_]; [lia|].
  rewrite offset_small by lia.
  by destruct (Z.ltb_spec actsize (nblocks * BS)) as [|_]; [lia|].
Qed.

Lemma numblocks_int_of f n : 0 ≤ n < 2 ^ 31 → numblocks (mk_BSwap16 f (int_of n)) = n.
Proof.
  intros Hn. unfold numblocks. cbn [_nblocks].
  rewrite int_of_small by lia. apply size_t_of_small. lia.
Qed.

(** Sizing inference: a file of [N * BS] bytes opened with no size given
    makes an instance whose block count is [N] taken through [int]. *)
Lemma sizing_inference BS fs e fname c N :
  0 < BS → openable fs = Some c →
  Z.of_nat (length c) = N * BS → 0 < N → N * BS < 2 ^ 63 →
  ∃ b, BSwap16_ctor BS fs e fname 0 = Constructed b None ∧
       contents (_file b) = c ∧ numblocks b = size_t_of (int_of N) ∧
       good b = true.
Proof.
  intros HBS Hopen Hlen HN Hmax. eexists. split.
  - apply ctor_infer; [lia | done | nia].
  - split; [done|]. split; [|done].
    unfold numblocks. cbn [_nblocks]. by rewrite Hlen, Z.div_mul by lia.
Qed.

(** Below [2^31] blocks the block count is [N]. *)
Lemma sizing_inference_below_2_31 BS fs e fname c N :
  0 < BS < 2 ^ 32 → openable fs = Some c →
  Z.of_nat (length c) = N * BS → 0 < N < 2 ^ 31 →
  ∃ b, BSwap16_ctor BS fs e fname 0 = Constructed b None ∧
       contents (_file b) = c ∧ numblocks b = N ∧ good b = true.
Proof.
  intros HBS Hopen Hlen HN.
  destruct (sizing_inference BS fs e fname c N) as (b & Hb & Hc & Hnb & Hg);
    [lia | done | done | lia | nia |].
  exists b. rewrite int_of_small, size_t_of_small in Hnb by lia. done.
Qed.

(** Growth on demand, with the system serving the requests: a file shorter
    than [nblocks * BS] bytes is grown to that size and its old bytes stay;
    the block count is [nblocks] taken through [int]. *)
Lemma growth BS f nblocks :
  0 < BS → ios_good f = true → 0 < nblocks →
  Z.of_nat (length (contents f)) < nblocks * BS → nblocks * BS < 2 ^ 63 →
  ∃ b, resolve BS quiet nblocks f (Z.of_nat (length (contents f)))
       = Constructed b (Some (Z.of_nat (length (contents f)), nblocks * BS)) ∧
       file_size b = nblocks * BS ∧
       (∀ i, (i < length (contents f))%nat →
             contents (_file b) !! i = contents f !! i) ∧
       numblocks b = size_t_of (int_of nblocks) ∧ good b = true.
Proof.
  intros HBS Hg Hn Hlen Hmax. eexists. split.
  - apply resolve_grow; [done | lia | lia].
  - unfold file_size. cbn [_file contents]. split; [|split; [|split]].
    + rewrite pwrite_length by done. cbn [length]. lia.
    + intros i Hi. apply pwrite_before; lia.
    + done.
    + done.
Qed.

Lemma growth_of_existing BS fs fname c nblocks :
  0 < BS → openable fs = Some c → 0 < nblocks →
  Z.of_nat (length c) < nblocks * BS → nblocks * BS < 2 ^ 63 →
  ∃ b, BSwap16_ctor BS fs quiet fname nblocks
       = Constructed b (Some (Z.of_nat (length c), nblocks * BS)) ∧
       file_size b = nblocks * BS ∧
       (∀ i, (i < length c)%nat → contents (_file b) !! i = c !! i) ∧
       numblocks b = size_t_of (int_of nblocks) ∧ good b = true.
Proof.
  intros HBS Hopen Hn Hlen Hmax.
  rewrite (ctor_opened BS fs quiet fname nblocks c) by (done || lia).
  by apply (growth BS (mk_fstream c (Z.of_nat (length c) + 0) false false false)).
Qed.

Lemma growth_of_created BS fs fname nblocks :
  0 < BS → openable fs = None → creatable fs = true → 0 < nblocks →
  nblocks * BS < 2 ^ 63 →
  ∃ b, BSwap16_ctor BS fs quiet fname nblocks
       = Constructed b (Some (0, nblocks * BS)) ∧
       file_size b = nblocks * BS ∧
       numblocks b = size_t_of (int_of nblocks) ∧ good b = true.
Proof.
  intros HBS Hopen Hcreate Hn Hmax.
  rewrite ctor_created by (done || lia).
  destruct (growth BS (mk_fstream [] 0 false false false) nblocks)
    as (b & Hb & Hsz & _ & Hnb & Hg); [done | done | done | simpl; nia | done |].
  by exists b.
Qed.

(** Below [2^31] blocks the block count is [nblocks]. *)
Lemma growth_below_2_31 BS fs fname c nblocks :
  0 < BS < 2 ^ 32 → openable fs = Some c →
  0 < nblocks < 2 ^ 31 → Z.of_nat (length c) < nblocks * BS →
  ∃ b, BSwap16_ctor BS fs quiet fname nblocks
       = Constructed b (Some (Z.of_nat (length c), nblocks * BS)) ∧
       file_size b = nblocks * BS ∧
       (∀ i, (i < length c)%nat → contents (_file b) !! i = c !! i) ∧
       numblocks b = nblocks ∧ good b = true.
Proof.
  intros HBS Hopen Hn Hlen.
  destruct (growth_of_existing BS fs fname c nblocks)
    as (b & Hb & Hsz & Hold & Hnb & Hg); [lia | done | lia | done | nia |].
  exists b. rewrite int_of_small, size_t_of_small in Hnb by lia. done.
Qed.

(** No request makes the file shorter or changes the block count. *)
Lemma serve_keeps_size BS e r b (h : heap) b' h' :
  serve BS e r b h = Some (b', h') →
  file_size b ≤ file_size b' ∧ numblocks b' = numblocks b.
Proof.
  intros Hrun. destruct (serve_stream _ _ _ _ _ _ _ Hrun) as [Hnb Hs].
  unfold numblocks, file_size. rewrite Hnb. split; [|done].
  apply inj_le.
  assert (Hrd : ∀ xf n s, contents (istream_read xf n s).1 = contents s).
  { intros xf n s. unfold istream_read. destruct (ios_good s); [|done].
    destruct xf; [done|]. cbn [fst]. by destruct (_ =? n). }
  assert (Hwr : ∀ xf bytes s,
             (length (contents s) ≤ length (contents (ostream_write xf bytes s)))%nat).
  { intros xf bytes s. unfold ostream_write. destruct (ios_good s); [|done].
    destruct xf; apply pwrite_grows. }
  destruct r; cbn [stream_after] in Hs.
  - by rewrite Hs, Hrd, seekg_contents.
  - destruct Hs as [bytes ->].
    etrans; [|apply Hwr]. by rewrite seekp_contents.
  - by rewrite Hs, Hrd, seekg_contents.
  - destruct Hs as [bytes ->].
    etrans; [|apply Hwr]. by rewrite seekp_contents.
  - rewrite Hs. unfold ostream_flush. destruct (ios_good _); [|done].
    by destruct (sync_fails e).
  - by rewrite Hs.
Qed.

(** The size invariant is kept by every request, and by every session. *)
Lemma serve_covers BS e r b (h : heap) b' h' :
  serve BS e r b h = Some (b', h') → covers BS b → covers BS b'.
Proof.
  intros Hrun Hcov. destruct (serve_keeps_size _ _ _ _ _ _ _ Hrun) as [Hsz Hnb].
  unfold covers in *. rewrite Hnb. lia.
Qed.


Lemma serve_all_keeps_size BS rs :
  ∀ b (h : heap) b' h',
    serve_all BS rs b h = Some (b', h') →
    file_size b ≤ file_size b' ∧ numblocks b' = numblocks b.
Proof.
  induction rs as [|[e r] rs IH]; intros b h b' h' Hrun; simpl in Hrun.
  - by injection Hrun as <- <-.
  - destruct (serve BS e r b h) as [[b1 h1]|] eqn:Hstep; [|done].
    destruct (serve_keeps_size _ _ _ _ _ _ _ Hstep) as [Hsz Hnb].
    destruct (IH _ _ _ _ Hrun) as [Hsz' Hnb']. split; [lia | congruence].
Qed.


(** ** Construction: fatal, or an instance

    What the second half of the constructor leaves when it returns, for a
    count below [2^31]: the count asked for or inferred, and a fully valid
    instance unless the seek that grows the file is refused. *)
Lemma resolve_instance BS e nblocks f actsize b w :
  0 < BS < 2 ^ 32 → ios_good f = true →
  actsize = Z.of_nat (length (contents f)) → actsize < 2 ^ 63 →
  resolve BS e nblocks f actsize = Constructed b w →
  (0 < nblocks < 2 ^ 31 →
   numblocks b = nblocks ∧
   (nblocks * BS ≤ actsize ∨ (seek_fails e = false ∧ xfer_fails e = None) →
    valid BS b) ∧
   (actsize < nblocks * BS → seek_fails e = true →
    good b = false ∧ file_size b = actsize ∧ ¬ covers BS b)) ∧
  (nblocks = 0 → actsize / BS < 2 ^ 31 →
   numblocks b = actsize / BS ∧ valid BS b).
Proof.
  intros HBS Hg -> Hsz Hres. split.
  - intros Hn. unfold resolve, blocksize in Hres.
    destruct (Z.eqb_spec nblocks 0) as [|_]; [lia|].
    rewrite offset_small in Hres by nia.
    destruct (Z.ltb_spec (Z.of_nat (length (contents f))) (nblocks * BS))
      as [Hlt|Hge]; injection Hres as <- _;
      (split; [apply numblocks_int_of; lia|]);
      unfold valid, covers, good, file_size, blocksize;
      rewrite numblocks_int_of by lia; cbn [_file].
    + rewrite streamoff_of_small by nia. unfold ostream_put. split.
      * intros [Hle|[-> ->]]; [lia|].
        rewrite seekp_good by (done || lia).
        rewrite ostream_write_good by done. cbn [contents fpos].
        split; [done|]. rewrite pwrite_length by done. cbn [length]. lia.
      * intros _ ->. unfold seekp, pubseekpos.
        destruct (good_bits f Hg) as (He & Hf & Hb).
        unfold ios_fail. rewrite Hf, Hb. cbn [orb].
        unfold ostream_write. rewrite set_failbit_not_good.
        split; [apply set_failbit_not_good|]. cbn [set_failbit contents].
        split; [done | lia].
    + split; [|intros; lia]. intros _. split; [done | lia].
  - intros -> Hdiv. unfold resolve, blocksize in Hres. cbn [Z.eqb] in Hres.
    destruct (Z.leb_spec (Z.of_nat (length (contents f))) 0) as [|Hpos];
      [done|].
    injection Hres as <- _. rewrite size_t_of_small by lia.
    assert (Hq : 0 ≤ Z.of_nat (length (contents f)) / BS < 2 ^ 31)
      by (split; [apply Z.div_pos; lia | done]).
    split; [by apply numblocks_int_of|].
    unfold valid, covers, good, file_size, blocksize.
    rewrite numblocks_int_of by done. cbn [_file]. split; [done|].
    rewrite Z.mul_comm. apply Z.mul_div_le. lia.
Qed.

(** C5 (fatal construction, and what the other cases give).  The
    constructor exits with status 1 after a diagnostic, giving no instance,
    exactly in the three fatal cases (no file to open and no size given; no file to open and none can
    be created; an empty file and no size given); in every other case it
    returns an instance, and gives no diagnostic.  The instance is good
    whenever the system serves the requests that grow the file.  For a count
    below [2^31], asked for or inferred from the size of the file, the
    instance has that count; it is fully valid when the file needs no growth
    or the system serves the growth, and when the system refuses the seek
    that grows the file the instance is returned all the same, not good,
    over the file as it was, which does not hold its blocks. *)
Theorem construction_fails_iff_fatal BS fs e fname nblocks :
  0 < BS < 2 ^ 32 → off_t_sized_fs fs →
  (fatal fs nblocks ↔
   ∃ diagnostic, BSwap16_ctor BS fs e fname nblocks = Exited 1 diagnostic) ∧
  (¬ fatal fs nblocks ↔
   ∃ b w, BSwap16_ctor BS fs e fname nblocks = Constructed b w) ∧
  (∀ status diagnostic,
     BSwap16_ctor BS fs e fname nblocks = Exited status diagnostic →
     status = 1) ∧
  ∀ b w,
    BSwap16_ctor BS fs e fname nblocks = Constructed b w →
    (seek_fails e = false → xfer_fails e = None → good b = true) ∧
    (0 < nblocks < 2 ^ 31 →
     numblocks b = nblocks ∧
     (nblocks * BS ≤ actual_size fs ∨
      (seek_fails e = false ∧ xfer_fails e = None) → valid BS b) ∧
     (actual_size fs < nblocks * BS → seek_fails e = true →
      good b = false ∧ file_size b = actual_size fs ∧ ¬ covers BS b)) ∧
    (nblocks = 0 → actual_size fs / BS < 2 ^ 31 →
     numblocks b = actual_size fs / BS ∧ valid BS b).
Proof.
  intros HBS Hsize.
  destruct (ctor_outcome BS fs e fname nblocks Hsize)
    as [(Hfatal & d & Hd)|(Hnot & b0 & w0 & Hb0 & Hg0)].
  - split; [split; [by exists d | done]|].
    split; [split; [done | intros (b & w & Hb); congruence]|].
    split; [intros status d' Hd'; congruence|].
    intros b w Hb. congruence.
  - split; [split; [done | intros (d & Hd); congruence]|].
    split; [split; [by exists b0, w0 | done]|].
    split; [intros status d Hd; congruence|].
    intros b w Hb. rewrite Hb0 in Hb. injection Hb as <- <-.
    split; [done|].
    assert (Hres : ∃ f,
               ios_good f = true ∧
               actual_size fs = Z.of_nat (length (contents f)) ∧
               actual_size fs < 2 ^ 63 ∧
               resolve BS e nblocks f (actual_size fs) = Constructed b0 w0).
    { unfold actual_size. destruct (openable fs) as [c|] eqn:Hopen.
      - rewrite (ctor_opened BS fs e fname nblocks c) in Hb0 by auto.
        eexists. split; [|split; [|split; [|exact Hb0]]]; [done | done | auto].
      - destruct (Z.eq_dec nblocks 0) as [Hn|Hn];
          [exfalso; apply Hnot; by left|].
        destruct (creatable fs) eqn:Hcreate;
          [|exfalso; apply Hnot; right; by left].
        rewrite ctor_created in Hb0 by done.
        eexists. split; [|split; [|split; [|exact Hb0]]]; [done | done | lia]. }
    destruct Hres as (f & Hg & Hact & Hlt & Hres).
    destruct (resolve_instance BS e nblocks f (actual_size fs) b0 w0
                HBS Hg Hact Hlt Hres) as [Hasked Hinferred].
    split; [|done].
    intros Hn. by apply Hasked.
Qed.

Lemma construction_fails_iff_fatal_witness :
  (0 < 512 < 2 ^ 32 ∧ off_t_sized_fs (mk_filesystem None true)) ∧
  (fatal (mk_filesystem None true) 1 ↔
   ∃ diagnostic,
     BSwap16_ctor 512 (mk_filesystem None true) quiet "disk" 1
     = Exited 1 diagnostic) ∧
  (¬ fatal (mk_filesystem None true) 1 ↔
   ∃ b w,
     BSwap16_ctor 512 (mk_filesystem None true) quiet "disk" 1
     = Constructed b w) ∧
  (∀ status diagnostic,
     BSwap16_ctor 512 (mk_filesystem None true) quiet "disk" 1
     = Exited status diagnostic →
     status = 1) ∧
  ∀ b w,
    BSwap16_ctor 512 (mk_filesystem None true) quiet "disk" 1
    = Constructed b w →
    (seek_fails quiet = false → xfer_fails quiet = None → good b = true) ∧
    (0 < 1 < 2 ^ 31 →
     numblocks b = 1 ∧
     (1 * 512 ≤ actual_size (mk_filesystem None true) ∨
      (seek_fails quiet = false ∧ xfer_fails quiet = None) → valid 512 b) ∧
     (actual_size (mk_filesystem None true) < 1 * 512 →
      seek_fails quiet = true →
      good b = false ∧ file_size b = actual_size (mk_filesystem None true) ∧
      ¬ covers 512 b)) ∧
    (1 = 0 → actual_size (mk_filesystem None true) / 512 < 2 ^ 31 →
     numblocks b = actual_size (mk_filesystem None true) / 512 ∧ valid 512 b).
Proof.
  assert (Hsize : off_t_sized_fs (mk_filesystem None true))
    by (intros c Hc; discriminate Hc).
  assert (H512 : 0 < 512 < 2 ^ 32) by lia.
  split; [exact (conj H512 Hsize)|].
  exact (construction_fails_iff_fatal 512 (mk_filesystem None true) quiet
           "disk" 1 H512 Hsize).
Defined.

(** Not every other case gives a fully valid instance, as the last sentence
    of C5 has it in the specification: the system may refuse the seek that
    grows the file.  Block size 4, a file of three bytes, two blocks
    asked for: the case is not fatal, [seekp (7)] sets failbit, [put] stores
    nothing, and the constructor returns an instance of two blocks that is
    not good, over a file of three bytes: no fully valid instance. *)
Lemma construction_with_seek_refused :
  ¬ fatal (mk_filesystem (Some [x0a; x0b; x0c]) false) 2 ∧
  ∃ b,
    BSwap16_ctor 4 (mk_filesystem (Some [x0a; x0b; x0c]) false)
      (mk_io true None false) "disk" 2
    = Constructed b (Some (3, 8)) ∧
    good b = false ∧ numblocks b = 2 ∧
    contents (_file b) = [x0a; x0b; x0c] ∧
    ¬ covers 4 b ∧ ¬ valid 4 b.
Proof.
  split.
  - intros [[Hopen _]|[[Hopen _]|[_ Hn]]]; discriminate.
  - eexists. split; [vm_compute; reflexivity|].
    split; [reflexivity|]. split; [reflexivity|]. split; [reflexivity|].
    assert (Hcov : ¬ covers 4
                     (mk_BSwap16 (mk_fstream [x0a; x0b; x0c] 3 false true false) 2)).
    { unfold covers, numblocks, file_size, blocksize, size_t_of.
      cbn [_nblocks _file contents length]. intros Hle. vm_compute in Hle.
      by apply Hle. }
    split; [done|]. by intros [_ ?].
Qed.

(** ** Block counts from [2^31] on

    [_nblocks] is an [int], while the constructor takes the count and
    [numblocks ()] returns it as [size_t]: from [2^31] blocks on, the count
    the instance reports is not the count it was given or has inferred. *)

(** [-s 1073741824] (1 TiB) asks the constructor for [2^31] blocks. *)
Lemma main_asks_2_31_blocks : blocks_of_kb 1073741824 = 2 ^ 31.
Proof. by vm_compute. Qed.

(** C3 (sizing inference), at a file of [2^31 * 512] bytes (1 TiB) opened
    with block size 512 and no size given: the constructor succeeds, and
    [numblocks ()] is [2^64 - 2^31], not [2^31]. *)
Theorem sizing_inference_at_2_31_blocks :
  ∃ b,
    BSwap16_ctor 512
      (mk_filesystem (Some (replicate (Z.to_nat (2 ^ 31 * 512)) x00)) false)
      quiet "disk" 0
    = Constructed b None ∧
    file_size b = 2 ^ 31 * 512 ∧
    numblocks b = 2 ^ 64 - 2 ^ 31 ∧
    numblocks b ≠ file_size b / 512.
Proof.
  destruct (sizing_inference 512
              (mk_filesystem (Some (replicate (Z.to_nat (2 ^ 31 * 512)) x00)) false)
              quiet "disk" (replicate (Z.to_nat (2 ^ 31 * 512)) x00) (2 ^ 31))
    as (b & Hb & Hc & Hnb & _).
  - lia.
  - reflexivity.
  - rewrite length_replicate. lia.
  - lia.
  - lia.
  - exists b. split; [exact Hb|].
    assert (Hsz : file_size b = 2 ^ 31 * 512)
      by (unfold file_size; rewrite Hc, length_replicate; lia).
    split; [exact Hsz|]. rewrite Hsz, Hnb. split; by vm_compute.
Qed.

(** C4 (growth on demand), at a file of four bytes opened with block size
    512 and [2^31] blocks requested: the file is grown to [2^31 * 512]
    bytes and its four bytes stay, and [numblocks ()] is [2^64 - 2^31], not
    the [2^31] requested. *)
Theorem growth_at_2_31_blocks :
  ∃ b,
    BSwap16_ctor 512 (mk_filesystem (Some [x01; x02; x03; x04]) false)
      quiet "disk" (2 ^ 31)
    = Constructed b (Some (4, 2 ^ 31 * 512)) ∧
    file_size b = 2 ^ 31 * 512 ∧
    (∀ i, (i < 4)%nat → contents (_file b) !! i = [x01; x02; x03; x04] !! i) ∧
    numblocks b = 2 ^ 64 - 2 ^ 31 ∧
    numblocks b ≠ 2 ^ 31.
Proof.
  destruct (growth_of_existing 512
              (mk_filesystem (Some [x01; x02; x03; x04]) false)
              "disk" [x01; x02; x03; x04] (2 ^ 31))
    as (b & Hb & Hsz & Hold & Hnb & _).
  - lia.
  - reflexivity.
  - lia.
  - cbn [length]. lia.
  - lia.
  - exists b. split; [exact Hb|]. split; [exact Hsz|]. split; [exact Hold|].
    rewrite Hnb. split; by vm_compute.
Qed.

(** C6 (size coverage), at a file created with block size 512 and [2^31]
    blocks requested: the instance is good and its file has [2^31 * 512]
    bytes, fewer than [numblocks () * 512]. *)
Theorem size_coverage_at_2_31_blocks :
  ∃ b w,
    BSwap16_ctor 512 (mk_filesystem None true) quiet "disk" (2 ^ 31)
    = Constructed b w ∧
    good b = true ∧
    file_size b = 2 ^ 31 * 512 ∧
    numblocks b = 2 ^ 64 - 2 ^ 31 ∧
    ¬ covers 512 b.
Proof.
  destruct (growth_of_created 512 (mk_filesystem None true) "disk" (2 ^ 31))
    as (b & Hb & Hsz & Hnb & Hg).
  - lia.
  - reflexivity.
  - reflexivity.
  - lia.
  - lia.
  - exists b. eexists. split; [exact Hb|]. split; [exact Hg|].
    split; [exact Hsz|].
    assert (Hnb' : numblocks b = 2 ^ 64 - 2 ^ 31) by (rewrite Hnb; by vm_compute).
    split; [exact Hnb'|].
    unfold covers, blocksize. rewrite Hsz, Hnb'. lia.
Qed.

(** Further up the size in bytes wraps as well.  [-s 9007199254740993] asks
    for [2^54 + 2] blocks of 512 bytes, [2^63 + 1024] bytes, a negative
    [totsize]: nothing is grown, the file that was created stays empty, and
    the instance is good and reports two blocks. *)
Lemma ctor_size_wraps :
  blocks_of_kb 9007199254740993 = 2 ^ 54 + 2 ∧
  ∃ b,
    BSwap16_ctor 512 (mk_filesystem None true) quiet "disk" (2 ^ 54 + 2)
    = Constructed b None ∧
    good b = true ∧ numblocks b = 2 ∧ file_size b = 0 ∧ ¬ covers 512 b.
Proof.
  split; [by vm_compute|].
  eexists. split; [vm_compute; reflexivity|].
  split; [reflexivity|]. split; [by vm_compute|]. split; [reflexivity|].
  unfold covers. intros Hle. vm_compute in Hle. by apply Hle.
Qed.

(** * Further properties of the code *)

(** ** [main]: the command line *)

(** Below [2^54] KB nothing wraps. *)
Lemma blocks_of_kb_small kb : 0 < kb < 2 ^ 54 → blocks_of_kb kb = 2 * kb.
Proof.
  intros Hkb. unfold blocks_of_kb, blocksize, size_t_of.
  rewrite (Z.mod_small (kb * 1024)) by lia.
  rewrite (Z.mod_small (kb * 1024 - 1)) by lia.
  assert (Hdiv : (kb * 1024 - 1) `div` 512 = 2 * kb - 1)
    by (symmetry; apply (Z.div_unique _ _ _ 511); lia).
  rewrite Hdiv, Z.mod_small; lia.
Qed.

(** X1 ([-s] in KB to blocks): the size [main] computes from a [-s] value
    [kb] is never 0, the value that makes the constructor infer the size,
    and is at most [2^55]; below [2^54] KB nothing wraps and it is
    [2 * kb] blocks, that is [kb * 1024] bytes exactly. *)
Theorem kb_to_blocks kb :
  0 < kb < 2 ^ 64 →
  1 ≤ blocks_of_kb kb ≤ 2 ^ 55 ∧
  (kb < 2 ^ 54 →
   blocks_of_kb kb = 2 * kb ∧ blocks_of_kb kb * blocksize 512 = kb * 1024).
Proof.
  intros Hkb. split.
  - unfold blocks_of_kb, blocksize, size_t_of.
    pose proof (Z.mod_pos_bound ((kb * 1024) `mod` 2 ^ 64 - 1) (2 ^ 64)) as Hb.
    set (x := ((kb * 1024) `mod` 2 ^ 64 - 1) `mod` 2 ^ 64) in *.
    assert (0 ≤ x `div` 512 < 2 ^ 55).
    { split; [apply Z.div_pos; lia|]. apply Z.div_lt_upper_bound; lia. }
    rewrite Z.mod_small; lia.
  - intros Hsmall. rewrite blocks_of_kb_small by lia.
    unfold blocksize. lia.
Qed.

Lemma kb_to_blocks_witness :
  0 < 8 < 2 ^ 64 ∧
  1 ≤ blocks_of_kb 8 ≤ 2 ^ 55 ∧
  (8 < 2 ^ 54 →
   blocks_of_kb 8 = 2 * 8 ∧ blocks_of_kb 8 * blocksize 512 = 8 * 1024).
Proof.
  assert (H8 : 0 < 8 < 2 ^ 64) by lia.
  split; [exact H8|]. exact (kb_to_blocks 8 H8).
Defined.

(** X2 (what [main] hands over): [main] calls the server only with a file
    name that is not empty and does not start with [-]; without [-s] it
    passes size 0 and leaves the arguments from the third on, with [-s] and
    a value that extracts to a positive [kb] it passes [blocks_of_kb kb] and
    leaves the arguments from the fifth on.  In every other case (no file
    name, or [-s] with no value, a value that does not extract, or 0) it
    prints the usage and returns 1. *)
Theorem main_hands_over extract argv :
  match main extract argv with
  | Serve argind fname size =>
      argv !! 1%nat = Some fname ∧ no_file_name fname = false ∧
      ((argv !! 2%nat ≠ Some "-s"%string ∧ argind = 2%nat ∧ size = 0) ∨
       (argv !! 2%nat = Some "-s"%string ∧ argind = 4%nat ∧
        ∃ arg kb, argv !! 3%nat = Some arg ∧ extract arg = Some kb ∧
                  0 < kb ∧ size = blocks_of_kb kb))
  | Usage =>
      argv !! 1%nat = None ∨
      (∃ fname, argv !! 1%nat = Some fname ∧ no_file_name fname = true) ∨
      (argv !! 2%nat = Some "-s"%string ∧
       (argv !! 3%nat = None ∨
        ∃ arg, argv !! 3%nat = Some arg ∧
               (extract arg = None ∨ ∃ kb, extract arg = Some kb ∧ kb ≤ 0)))
  end.
Proof.
  unfold main. case_decide as Hargc.
  { left. apply lookup_ge_None. lia. }
  destruct (argv !! 1%nat) as [fname|] eqn:Hfname; [|by left].
  destruct (no_file_name fname) eqn:Hname; [right; left; by eexists|].
  destruct (bool_decide (2 < length argv)%nat
            && bool_decide (argv !! 2%nat = Some "-s"%string)) eqn:Hs.
  - apply andb_prop in Hs as [_ Hs%bool_decide_eq_true].
    case_decide as Hargc'.
    { right. right. split; [done|]. left. apply lookup_ge_None. lia. }
    destruct (argv !! 3%nat) as [arg|] eqn:Harg;
      [|right; right; split; [done | by left]].
    destruct (extract arg) as [kb|] eqn:Hkb.
    + destruct (Z.leb_spec kb 0).
      * right. right. split; [done|]. right. exists arg. split; [done|].
        right. by exists kb.
      * split; [done|]. split; [done|]. right. split; [done|]. split; [done|].
        by exists arg, kb.
    + right. right. split; [done|]. right. exists arg. split; [done|]. by left.
  - split; [done|]. split; [done|]. left. split; [|done].
    intros Heq. apply andb_false_iff in Hs as [Hs|Hs].
    + apply bool_decide_eq_false in Hs. apply Hs.
      apply lookup_lt_is_Some. by rewrite Heq.
    + by apply bool_decide_eq_false in Hs.
Qed.

(** ** The constructor: what becomes of the file *)

(** One zero byte written at or past the end of the file extends the file
    with zero bytes up to it. *)
Lemma pwrite_zero_extend p f :
  (length f ≤ p)%nat → pwrite p [x00] f = f ++ replicate (S p - length f) x00.
Proof.
  intros Hp. unfold pwrite. rewrite take_ge, drop_ge by lia.
  rewrite app_nil_r. f_equal.
  replace (S p - length f)%nat with (S (p - length f)) by lia.
  symmetry. apply replicate_cons_app.
Qed.

(** On a good stream over a file of fewer than [nblocks * BS] bytes, the
    second half of the constructor grows the file with zero bytes. *)
Lemma resolve_zero_fill BS nblocks f :
  0 < BS < 2 ^ 32 → 0 < nblocks < 2 ^ 31 → ios_good f = true →
  Z.of_nat (length (contents f)) < nblocks * BS →
  ∃ b,
    resolve BS quiet nblocks f (Z.of_nat (length (contents f)))
    = Constructed b (Some (Z.of_nat (length (contents f)), nblocks * BS)) ∧
    contents (_file b)
    = contents f
      ++ replicate (Z.to_nat (nblocks * BS - Z.of_nat (length (contents f)))) x00 ∧
    file_size b = nblocks * BS ∧
    numblocks b = nblocks ∧ good b = true.
Proof.
  intros HBS Hn Hg Hlen.
  eexists. split; [apply resolve_grow; [done | lia | nia]|].
  unfold file_size. cbn [_file contents].
  rewrite pwrite_zero_extend by lia.
  replace (S (Z.to_nat (nblocks * BS - 1)) - length (contents f))%nat
    with (Z.to_nat (nblocks * BS - Z.of_nat (length (contents f)))) by lia.
  split; [done|]. split; [rewrite length_app, length_replicate; lia|].
  split; [apply numblocks_int_of; lia | done].
Qed.

(** X3 (growth, to the byte): with a size given below [2^31] blocks and the
    system serving the requests, a file shorter than [nblocks * BS] bytes,
    or created because there was none, ends as its old bytes followed by
    zero bytes up to exactly [nblocks * BS] bytes; the warning reports the
    old and the new size, the instance is good and has [nblocks] blocks. *)
Theorem ctor_grows_with_zeros BS fs fname nblocks c :
  0 < BS < 2 ^ 32 → 0 < nblocks < 2 ^ 31 →
  openable fs = Some c ∨ (openable fs = None ∧ creatable fs = true ∧ c = []) →
  Z.of_nat (length c) < nblocks * BS →
  ∃ b,
    BSwap16_ctor BS fs quiet fname nblocks
    = Constructed b (Some (Z.of_nat (length c), nblocks * BS)) ∧
    contents (_file b)
    = c ++ replicate (Z.to_nat (nblocks * BS - Z.of_nat (length c))) x00 ∧
    file_size b = nblocks * BS ∧
    numblocks b = nblocks ∧ good b = true.
Proof.
  intros HBS Hn Hfile Hlen.
  destruct Hfile as [Hopen|(Hopen & Hcreate & ->)].
  - rewrite (ctor_opened BS fs quiet fname nblocks c) by (done || nia).
    by apply (resolve_zero_fill BS nblocks
                (mk_fstream c (Z.of_nat (length c) + 0) false false false)).
  - rewrite ctor_created by (done || lia).
    by apply (resolve_zero_fill BS nblocks (mk_fstream [] 0 false false false)).
Qed.

Lemma ctor_grows_with_zeros_witness :
  (0 < 4 < 2 ^ 32 ∧ 0 < 2 < 2 ^ 31 ∧
   (openable (mk_filesystem (Some [x0a; x0b; x0c]) false) = Some [x0a; x0b; x0c] ∨
    (openable (mk_filesystem (Some [x0a; x0b; x0c]) false) = None ∧
     creatable (mk_filesystem (Some [x0a; x0b; x0c]) false) = true ∧
     [x0a; x0b; x0c] = [])) ∧
   Z.of_nat (length [x0a; x0b; x0c]) < 2 * 4) ∧
  ∃ b,
    BSwap16_ctor 4 (mk_filesystem (Some [x0a; x0b; x0c]) false) quiet "disk" 2
    = Constructed b (Some (Z.of_nat (length [x0a; x0b; x0c]), 2 * 4)) ∧
    contents (_file b)
    = [x0a; x0b; x0c]
      ++ replicate (Z.to_nat (2 * 4 - Z.of_nat (length [x0a; x0b; x0c]))) x00 ∧
    file_size b = 2 * 4 ∧
    numblocks b = 2 ∧ good b = true.
Proof.
  assert (H4 : 0 < 4 < 2 ^ 32) by lia.
  assert (H2 : 0 < 2 < 2 ^ 31) by lia.
  assert (Hfile :
    openable (mk_filesystem (Some [x0a; x0b; x0c]) false) = Some [x0a; x0b; x0c] ∨
    (openable (mk_filesystem (Some [x0a; x0b; x0c]) false) = None ∧
     creatable (mk_filesystem (Some [x0a; x0b; x0c]) false) = true ∧
     [x0a; x0b; x0c] = [])) by (left; reflexivity).
  assert (Hlen : Z.of_nat (length [x0a; x0b; x0c]) < 2 * 4) by (simpl; lia).
  split; [done|].
  exact (ctor_grows_with_zeros 4 (mk_filesystem (Some [x0a; x0b; x0c]) false)
           "disk" 2 [x0a; x0b; x0c] H4 H2 Hfile Hlen).
Defined.

(** X4 (a file that is large enough): with a size given below [2^31]
    blocks, a file of at least [nblocks * BS] bytes is left as it is,
    whatever the system would do, and nothing is logged; the instance is
    good and has [nblocks] blocks, however much longer the file is. *)
Theorem ctor_keeps_large_file BS fs e fname nblocks c :
  0 < BS < 2 ^ 32 → 0 < nblocks < 2 ^ 31 →
  openable fs = Some c →
  nblocks * BS ≤ Z.of_nat (length c) < 2 ^ 63 →
  ∃ b,
    BSwap16_ctor BS fs e fname nblocks = Constructed b None ∧
    contents (_file b) = c ∧
    numblocks b = nblocks ∧ covers BS b ∧ good b = true.
Proof.
  intros HBS Hn Hopen Hlen.
  rewrite (ctor_opened BS fs e fname nblocks c) by (done || lia).
  rewrite resolve_keep by (done || nia).
  eexists. split; [done|]. split; [done|].
  assert (Hnb : ∀ f, numblocks (mk_BSwap16 f (int_of nblocks)) = nblocks)
    by (intros f; apply numblocks_int_of; lia).
  split; [apply Hnb|]. split; [|done].
  unfold covers, blocksize, file_size. rewrite Hnb. cbn [_file contents]. lia.
Qed.

Lemma ctor_keeps_large_file_witness :
  (0 < 4 < 2 ^ 32 ∧ 0 < 1 < 2 ^ 31 ∧
   openable demo_disk = Some (replicate 8 x00) ∧
   1 * 4 ≤ Z.of_nat (length (replicate 8 x00)) < 2 ^ 63) ∧
  ∃ b,
    BSwap16_ctor 4 demo_disk quiet "disk" 1 = Constructed b None ∧
    contents (_file b) = replicate 8 x00 ∧
    numblocks b = 1 ∧ covers 4 b ∧ good b = true.
Proof.
  assert (H4 : 0 < 4 < 2 ^ 32) by lia.
  assert (H1 : 0 < 1 < 2 ^ 31) by lia.
  assert (Hopen : openable demo_disk = Some (replicate 8 x00)) by reflexivity.
  assert (Hlen : 1 * 4 ≤ Z.of_nat (length (replicate 8 x00)) < 2 ^ 63)
    by (simpl; lia).
  split; [done|].
  exact (ctor_keeps_large_file 4 demo_disk quiet "disk" 1 (replicate 8 x00)
           H4 H1 Hopen Hlen).
Defined.

(** X5 (inference rounds down): with no size given, a file that is not
    empty is left as it is and the instance has as many blocks as fit in it
    whole (below [2^31]): the bytes past the last whole block, fewer than
    [BS], are not part of the device, and a file shorter than one block
    makes a device of 0 blocks. *)
Theorem ctor_infers_whole_blocks BS fs e fname c :
  0 < BS < 2 ^ 32 → openable fs = Some c →
  0 < Z.of_nat (length c) < 2 ^ 63 → Z.of_nat (length c) / BS < 2 ^ 31 →
  ∃ b,
    BSwap16_ctor BS fs e fname 0 = Constructed b None ∧
    contents (_file b) = c ∧
    numblocks b = Z.of_nat (length c) / BS ∧
    0 ≤ file_size b - numblocks b * BS < BS ∧
    (Z.of_nat (length c) < BS → numblocks b = 0) ∧
    good b = true.
Proof.
  intros HBS Hopen Hlen Hdiv.
  rewrite (ctor_infer BS fs e fname c) by (done || lia).
  eexists. split; [done|]. split; [done|].
  assert (Hnb : ∀ f, numblocks (mk_BSwap16 f (int_of (Z.of_nat (length c) / BS)))
                = Z.of_nat (length c) / BS).
  { intros f. apply numblocks_int_of. split; [apply Z.div_pos; lia | done]. }
  rewrite Hnb. split; [done|]. unfold file_size. cbn [_file contents].
  split; [|split; [|done]].
  - pose proof (Z.div_mod (Z.of_nat (length c)) BS).
    pose proof (Z.mod_pos_bound (Z.of_nat (length c)) BS). lia.
  - intros Hshort. apply Z.div_small. lia.
Qed.

Lemma ctor_infers_whole_blocks_witness :
  (0 < 4 < 2 ^ 32 ∧
   openable (mk_filesystem (Some [x0a; x0b; x0c]) false) = Some [x0a; x0b; x0c] ∧
   0 < Z.of_nat (length [x0a; x0b; x0c]) < 2 ^ 63 ∧
   Z.of_nat (length [x0a; x0b; x0c]) / 4 < 2 ^ 31) ∧
  ∃ b,
    BSwap16_ctor 4 (mk_filesystem (Some [x0a; x0b; x0c]) false) quiet "disk" 0
    = Constructed b None ∧
    contents (_file b) = [x0a; x0b; x0c] ∧
    numblocks b = Z.of_nat (length [x0a; x0b; x0c]) / 4 ∧
    0 ≤ file_size b - numblocks b * 4 < 4 ∧
    (Z.of_nat (length [x0a; x0b; x0c]) < 4 → numblocks b = 0) ∧
    good b = true.
Proof.
  assert (H4 : 0 < 4 < 2 ^ 32) by lia.
  assert (Hopen : openable (mk_filesystem (Some [x0a; x0b; x0c]) false)
                  = Some [x0a; x0b; x0c]) by reflexivity.
  assert (Hlen : 0 < Z.of_nat (length [x0a; x0b; x0c]) < 2 ^ 63) by (simpl; lia).
  assert (Hdiv : Z.of_nat (length [x0a; x0b; x0c]) / 4 < 2 ^ 31)
    by (vm_compute; reflexivity).
  split; [done|].
  exact (ctor_infers_whole_blocks 4 (mk_filesystem (Some [x0a; x0b; x0c]) false)
           quiet "disk" [x0a; x0b; x0c] H4 Hopen Hlen Hdiv).
Defined.



(** X8 (from the command line to the file): for [prog file -s kb] with
    [0 < kb < 2^30] and no file under that name, [main] asks for [2 * kb]
    blocks, and the constructor of [BSwap16<>], the system serving its
    requests, creates a file of exactly [kb * 1024] zero bytes and gives a
    good instance of [2 * kb] blocks of 512 bytes. *)
Theorem main_creates_kb_file extract prog fname arg kb fs :
  no_file_name fname = false → extract arg = Some kb → 0 < kb < 2 ^ 30 →
  openable fs = None → creatable fs = true →
  ∃ b,
    main extract [prog; fname; "-s"%string; arg] = Serve 4 fname (2 * kb) ∧
    BSwap16_ctor (blocksize 512) fs quiet fname (2 * kb)
    = Constructed b (Some (0, kb * 1024)) ∧
    contents (_file b) = replicate (Z.to_nat (kb * 1024)) x00 ∧
    numblocks b = 2 * kb ∧ good b = true.
Proof.
  intros Hname Harg Hkb Hopen Hcreate.
  assert (Hctor' : BSwap16_ctor 512 fs quiet fname (2 * kb)
                   = resolve 512 quiet (2 * kb)
                       (mk_fstream [] 0 false false false) 0)
    by (apply ctor_created; (done || lia)).
  destruct (resolve_zero_fill 512 (2 * kb) (mk_fstream [] 0 false false false))
    as (b & Hctor & Hc & _ & Hnb & Hg); [lia | lia | done | simpl; lia |].
  cbn [contents length] in Hctor, Hc.
  change (Z.of_nat 0) with 0 in Hctor, Hc. rewrite <- Hctor' in Hctor.
  exists b. split.
  - unfold main. cbn [length list_lookup lookup]. rewrite Hname.
    rewrite decide_False by lia. cbn [andb bool_decide].
    rewrite bool_decide_eq_true_2 by lia.
    rewrite bool_decide_eq_true_2 by done. cbn [andb].
    rewrite decide_False by lia. rewrite Harg.
    destruct (Z.leb_spec kb 0); [lia|].
    by rewrite blocks_of_kb_small by lia.
  - unfold blocksize. cbn [length] in Hctor, Hc.
    replace (2 * kb * 512) with (kb * 1024) in Hctor, Hc by lia.
    rewrite Z.sub_0_r in Hc. done.
Qed.

Lemma main_creates_kb_file_witness :
  (no_file_name "disk" = false ∧
   (λ s : string, if String.eqb s "8" then Some 8 else None) "8"%string = Some 8 ∧
   0 < 8 < 2 ^ 30 ∧
   openable (mk_filesystem None true) = None ∧
   creatable (mk_filesystem None true) = true) ∧
  ∃ b,
    main (λ s : string, if String.eqb s "8" then Some 8 else None)
      ["bswap16"; "disk"; "-s"; "8"]%string
    = Serve 4 "disk" (2 * 8) ∧
    BSwap16_ctor (blocksize 512) (mk_filesystem None true) quiet "disk" (2 * 8)
    = Constructed b (Some (0, 8 * 1024)) ∧
    contents (_file b) = replicate (Z.to_nat (8 * 1024)) x00 ∧
    numblocks b = 2 * 8 ∧ good b = true.
Proof.
  assert (Hname : no_file_name "disk" = false) by reflexivity.
  assert (Harg : (λ s : string, if String.eqb s "8" then Some 8 else None)
                   "8"%string = Some 8) by reflexivity.
  assert (Hkb : 0 < 8 < 2 ^ 30) by lia.
  assert (Hopen : openable (mk_filesystem None true) = None) by reflexivity.
  assert (Hcreate : creatable (mk_filesystem None true) = true) by reflexivity.
  split; [done|].
  exact (main_creates_kb_file
           (λ s : string, if String.eqb s "8" then Some 8 else None)
           "bswap16" "disk" "8" 8 (mk_filesystem None true)
           Hname Harg Hkb Hopen Hcreate).
Defined.

(** ** Transfers: what becomes of the file *)

Lemma pwrite_after pos bytes f k :
  (pos + length bytes ≤ k)%nat → (k < length f)%nat →
  pwrite pos bytes f !! k = f !! k.
Proof.
  intros Hk Hf. unfold pwrite. destruct bytes as [|c bytes]; [done|].
  rewrite !app_assoc.
  rewrite lookup_app_r;
    rewrite !length_app, length_take, length_replicate; [|lia].
  rewrite lookup_drop. f_equal. lia.
Qed.

Lemma pwrite_outside pos bytes f k :
  (k < length f)%nat → (k < pos ∨ pos + length bytes ≤ k)%nat →
  pwrite pos bytes f !! k = f !! k.
Proof.
  intros Hf [Hk|Hk]; [by apply pwrite_before | by apply pwrite_after].
Qed.

(** Past the old end of the file and before the bytes written, the file
    reads as zero bytes. *)
Lemma pwrite_gap pos bytes f k :
  bytes ≠ [] → (length f ≤ k < pos)%nat → pwrite pos bytes f !! k = Some x00.
Proof.
  intros Hne Hk. unfold pwrite. destruct bytes as [|c bytes]; [done|].
  rewrite lookup_app_r by (rewrite length_take; lia).
  rewrite lookup_app_l by (rewrite length_take, length_replicate; lia).
  apply lookup_replicate_2. rewrite length_take. lia.
Qed.

Lemma pwrite_within pos bytes f :
  (pos + length bytes ≤ length f)%nat → length (pwrite pos bytes f) = length f.
Proof.
  intros Hin. destruct bytes as [|c bytes]; [done|].
  rewrite pwrite_length by done. lia.
Qed.

(** Two writes back to back are one write of the bytes of both. *)
Lemma pwrite_pwrite p a b f :
  pwrite (p + length a) b (pwrite p a f) = pwrite p (a ++ b) f.
Proof.
  destruct a as [|x a].
  { simpl. by rewrite Nat.add_0_r. }
  destruct b as [|y b].
  { by rewrite app_nil_r. }
  set (A := x :: a). set (B := y :: b).
  assert (Hf1 : pwrite p A f
                = ((take p f ++ replicate (p - length f) x00) ++ A)
                  ++ drop (p + length A) f)
    by (unfold pwrite, A; by rewrite <- !app_assoc).
  assert (Hpre : length ((take p f ++ replicate (p - length f) x00) ++ A)
                 = (p + length A)%nat)
    by (rewrite !length_app, length_take, length_replicate; lia).
  unfold pwrite at 1. fold B. unfold B at 1.
  rewrite Hf1 at 1 2 3.
  rewrite take_app_length' by done.
  rewrite length_app, Hpre, length_drop.
  replace (p + length A - (p + length A + (length f - (p + length A))))%nat
    with 0%nat by lia.
  rewrite drop_app_ge by lia. rewrite Hpre, drop_drop.
  replace (p + length A + (p + length A + length B - (p + length A)))%nat
    with (p + length (A ++ B))%nat by (rewrite length_app; lia).
  unfold pwrite, A. cbn [app replicate]. fold A.
  by rewrite <- !app_assoc.
Qed.

Lemma istream_read_contents broken n s :
  contents (istream_read broken n s).1 = contents s.
Proof.
  unfold istream_read. destruct (ios_good s); [|done].
  destruct broken; [done|]. cbn [fst]. by destruct (_ =? n).
Qed.

Lemma ostream_flush_contents refused s :
  contents (ostream_flush refused s) = contents s.
Proof.
  unfold ostream_flush. destruct (ios_good s); [|done]. by destruct refused.
Qed.

(** A write puts some first bytes of what it was given at the offset sought,
    or nothing at all. *)
Lemma write_contents sf xf off bytes s :
  contents (ostream_write xf bytes (seekp sf off s)) = contents s ∨
  (0 ≤ off ∧
   ∃ k, contents (ostream_write xf bytes (seekp sf off s))
        = pwrite (Z.to_nat off) (take k bytes) (contents s)).
Proof.
  unfold ostream_write.
  destruct (ios_good (seekp sf off s)) eqn:Hg; [|left; apply seekp_contents].
  destruct (seekp_good_inv _ _ _ Hg) as (_ & Hpos & Hoff).
  right. split; [done|]. rewrite Hpos, seekp_contents.
  destruct xf as [k|]; [by exists k|].
  exists (length bytes). by rewrite firstn_all.
Qed.

(** X9 (a write stays in its blocks): whatever the system does, a request
    that returns leaves every byte of the file outside the range it
    addresses as it was; [read], [multiread], [flush] and [trim] leave the
    whole file as it was. *)
Theorem transfers_stay_in_range BS e r b (h : heap) b' h' :
  0 < BS < 2 ^ 32 → (2 | BS) → request_ok BS r h →
  serve BS e r b h = Some (b', h') →
  (is_read r = true ∨ is_transfer r = false →
   contents (_file b') = contents (_file b)) ∧
  (∀ k : nat,
     (k < length (contents (_file b)))%nat →
     Z.of_nat k < request_offset BS r ∨
     request_offset BS r + request_bytes BS r ≤ Z.of_nat k →
     contents (_file b') !! k = contents (_file b) !! k).
Proof.
  intros HBS Hev Hok Hrun.
  assert (Hwr : ∀ index count data arr,
            0 ≤ index * BS < 2 ^ 63 → 0 ≤ count * BS < 2 ^ 63 →
            h !! data = Some arr → count * BS ≤ Z.of_nat (length arr) →
            multiwrite BS e index count data b h = Some (b', h') →
            ∀ k : nat,
              (k < length (contents (_file b)))%nat →
              Z.of_nat k < index * BS ∨ index * BS + count * BS ≤ Z.of_nat k →
              contents (_file b') !! k = contents (_file b) !! k).
  { intros index count data arr Hoff Hn Hdata Hlen Hw k Hk Hout.
    rewrite (multiwrite_spec BS HBS Hev _ _ _ _ _ _ arr) in Hw by (done || lia).
    injection Hw as <- <-. cbn [_file]. rewrite offset_small by lia.
    destruct (write_contents (seek_fails e) (xfer_fails e) (index * BS)
                (swap_pairs (take (Z.to_nat (count * BS)) arr)) (_file b))
      as [->|(_ & j & ->)]; [done|].
    apply pwrite_outside; [done|].
    rewrite length_take, swap_pairs_length, length_take. lia. }
  assert (Hsame : is_read r = true ∨ is_transfer r = false →
                  contents (_file b') = contents (_file b)).
  { destruct (serve_stream _ _ _ _ _ _ _ Hrun) as [_ Hs].
    destruct r; cbn [is_read is_transfer stream_after] in *;
      intros [?|?]; try done; rewrite Hs;
      by rewrite ?istream_read_contents, ?seekg_contents,
                 ?ostream_flush_contents. }
  split; [done|]. intros k Hk Hout.
  destruct r as [index data|index data|index count data|index count data| |index count];
    cbn [serve request_ok request_offset request_bytes] in *;
    try (rewrite Hsame; [done | (by left) || (by right)]);
    destruct Hok as (Hoff & Hn & arr & Hdata & Hlen).
  - rewrite write_multiwrite in Hrun by lia.
    apply (Hwr index 1 data arr); (done || lia).
  - by apply (Hwr index count data arr).
Qed.

Lemma transfers_stay_in_range_witness :
  (0 < 4 < 2 ^ 32 ∧ (2 | 4) ∧ request_ok 4 (Write 0 1%positive) demo_heap ∧
   serve 4 quiet (Write 0 1%positive) demo_backend demo_heap
   = Some (demo_written, demo_heap)) ∧
  (is_read (Write 0 1%positive) = true ∨
   is_transfer (Write 0 1%positive) = false →
   contents (_file demo_written) = contents (_file demo_backend)) ∧
  (∀ k : nat,
     (k < length (contents (_file demo_backend)))%nat →
     Z.of_nat k < request_offset 4 (Write 0 1%positive) ∨
     request_offset 4 (Write 0 1%positive)
     + request_bytes 4 (Write 0 1%positive) ≤ Z.of_nat k →
     contents (_file demo_written) !! k = contents (_file demo_backend) !! k).
Proof.
  assert (H4 : 0 < 4 < 2 ^ 32) by lia.
  assert (Hev : (2 | 4)) by (exists 2; reflexivity).
  assert (Hok : request_ok 4 (Write 0 1%positive) demo_heap).
  { simpl. split; [lia|]. split; [lia|].
    exists [x01; x02; x03; x04]. split; [reflexivity | simpl; lia]. }
  assert (Hrun : serve 4 quiet (Write 0 1%positive) demo_backend demo_heap
                 = Some (demo_written, demo_heap)) by (vm_compute; reflexivity).
  split; [done|].
  exact (transfers_stay_in_range 4 quiet (Write 0 1%positive) demo_backend
           demo_heap demo_written demo_heap H4 Hev Hok Hrun).
Defined.

(** X10 (no bound on the index of a write): [write] and [multiwrite] do not
    compare the blocks they address with [numblocks ()].  On a good
    instance, the system serving the requests, a write of at least one byte
    returns, leaves the instance good and its block count as it was, and
    the file ends at the end of the range written when that lies past its
    old end, the bytes between the old end and the range reading as
    zero. *)
Theorem write_past_the_end BS b (h : heap) index count data arr :
  0 < BS < 2 ^ 32 → (2 | BS) → good b = true →
  0 ≤ index * BS → 0 < count * BS → index * BS + count * BS < 2 ^ 63 →
  h !! data = Some arr → count * BS ≤ Z.of_nat (length arr) →
  ∃ b',
    multiwrite BS quiet index count data b h = Some (b', h) ∧
    (count = 1 → write BS quiet index data b h = Some (b', h)) ∧
    good b' = true ∧ numblocks b' = numblocks b ∧
    file_size b' = Z.max (file_size b) (index * BS + count * BS) ∧
    (∀ k : nat, file_size b ≤ Z.of_nat k < index * BS →
                contents (_file b') !! k = Some x00).
Proof.
  intros HBS Hev Hg Hoff Hn Hmax Hdata Hlen.
  rewrite (multiwrite_spec BS HBS Hev _ _ _ _ _ _ arr) by (done || lia).
  eexists. split; [done|]. split.
  { intros ->. rewrite write_multiwrite by lia.
    by rewrite (multiwrite_spec BS HBS Hev _ _ _ _ _ _ arr) by (done || lia). }
  cbn [quiet seek_fails xfer_fails]. rewrite offset_small by lia.
  rewrite seekp_good by (done || lia). rewrite ostream_write_good by done.
  unfold good, numblocks, file_size. cbn [_file _nblocks contents fpos].
  set (SW := swap_pairs (take (Z.to_nat (count * BS)) arr)).
  assert (HSW : length SW = Z.to_nat (count * BS))
    by (unfold SW; rewrite swap_pairs_length, length_take; lia).
  assert (Hne : SW ≠ []) by (intros HE; rewrite HE in HSW; simpl in HSW; lia).
  split; [done|]. split; [done|]. split.
  - rewrite pwrite_length by done. lia.
  - intros k Hk. apply pwrite_gap; [done | lia].
Qed.

Lemma write_past_the_end_witness :
  (0 < 4 < 2 ^ 32 ∧ (2 | 4) ∧ good demo_backend = true ∧
   0 ≤ 5 * 4 ∧ 0 < 1 * 4 ∧ 5 * 4 + 1 * 4 < 2 ^ 63 ∧
   demo_heap !! 1%positive = Some [x01; x02; x03; x04] ∧
   1 * 4 ≤ Z.of_nat (length [x01; x02; x03; x04])) ∧
  ∃ b',
    multiwrite 4 quiet 5 1 1%positive demo_backend demo_heap
    = Some (b', demo_heap) ∧
    (1 = 1 → write 4 quiet 5 1%positive demo_backend demo_heap
             = Some (b', demo_heap)) ∧
    good b' = true ∧ numblocks b' = numblocks demo_backend ∧
    file_size b' = Z.max (file_size demo_backend) (5 * 4 + 1 * 4) ∧
    (∀ k : nat, file_size demo_backend ≤ Z.of_nat k < 5 * 4 →
                contents (_file b') !! k = Some x00).
Proof.
  assert (H4 : 0 < 4 < 2 ^ 32) by lia.
  assert (Hev : (2 | 4)) by (exists 2; reflexivity).
  assert (Hg : good demo_backend = true) by reflexivity.
  assert (Hoff : 0 ≤ 5 * 4) by lia.
  assert (Hn : 0 < 1 * 4) by lia.
  assert (Hmax : 5 * 4 + 1 * 4 < 2 ^ 63) by lia.
  assert (Hdata : demo_heap !! 1%positive = Some [x01; x02; x03; x04])
    by reflexivity.
  assert (Hlen : 1 * 4 ≤ Z.of_nat (length [x01; x02; x03; x04])) by (simpl; lia).
  split; [done|].
  exact (write_past_the_end 4 demo_backend demo_heap 5 1 1%positive
           [x01; x02; x03; x04] H4 Hev Hg Hoff Hn Hmax Hdata Hlen).
Defined.

(** ** Reads: what reaches the caller *)

(** X11 (what a read returns): on a good instance, the system serving the
    requests, [multiread] of blocks that lie within the file (and [read],
    at [count = 1]) puts in the first [count * BS] bytes of the caller's
    array the bytes of the file at the offset of the blocks with the bytes
    of every pair exchanged, and leaves the rest of the array, the file,
    the block count and the health of the instance as they were. *)
Theorem read_returns_swapped_blocks BS b (h : heap) index count data arr :
  0 < BS < 2 ^ 32 → (2 | BS) → good b = true →
  0 ≤ index * BS → 0 ≤ count * BS →
  index * BS + count * BS ≤ file_size b → file_size b < 2 ^ 63 →
  h !! data = Some arr → count * BS ≤ Z.of_nat (length arr) →
  ∃ b',
    multiread BS quiet index count data b h
    = Some (b',
            <[data := swap_pairs
                        (take (Z.to_nat (count * BS))
                           (drop (Z.to_nat (index * BS)) (contents (_file b))))
                      ++ drop (Z.to_nat (count * BS)) arr]> h) ∧
    (count = 1 →
     read BS quiet index data b h = multiread BS quiet index count data b h) ∧
    good b' = true ∧ contents (_file b') = contents (_file b) ∧
    numblocks b' = numblocks b.
Proof.
  intros HBS Hev Hg Hoff Hn Hin Hmax Hdata Hlen. unfold file_size in *.
  assert (Hone : count = 1 →
            read BS quiet index data b h = multiread BS quiet index count data b h)
    by (intros ->; apply read_multiread; lia).
  revert Hone.
  rewrite (multiread_spec BS HBS Hev _ _ _ _ _ _ arr) by (done || lia).
  cbv zeta. cbn [quiet seek_fails xfer_fails]. rewrite offset_small by lia.
  rewrite seekg_good by (done || lia).
  rewrite istream_read_good;
    [| done | cbn [contents fpos]; rewrite length_drop; lia | lia].
  cbn [fst snd contents fpos].
  rewrite take_app_length' by (rewrite length_take, length_drop; lia).
  intros Hone. eexists. split; [done|]. split; [exact Hone | done].
Qed.

Lemma read_returns_swapped_blocks_witness :
  (0 < 4 < 2 ^ 32 ∧ (2 | 4) ∧ good demo_written = true ∧
   0 ≤ 0 * 4 ∧ 0 ≤ 1 * 4 ∧ 0 * 4 + 1 * 4 ≤ file_size demo_written ∧
   file_size demo_written < 2 ^ 63 ∧
   demo_heap !! 2%positive = Some [xaa; xbb; xcc; xdd] ∧
   1 * 4 ≤ Z.of_nat (length [xaa; xbb; xcc; xdd])) ∧
  ∃ b',
    multiread 4 quiet 0 1 2%positive demo_written demo_heap
    = Some (b',
            <[2%positive := swap_pairs
                        (take (Z.to_nat (1 * 4))
                           (drop (Z.to_nat (0 * 4))
                              (contents (_file demo_written))))
                      ++ drop (Z.to_nat (1 * 4)) [xaa; xbb; xcc; xdd]]>
              demo_heap) ∧
    (1 = 1 →
     read 4 quiet 0 2%positive demo_written demo_heap
     = multiread 4 quiet 0 1 2%positive demo_written demo_heap) ∧
    good b' = true ∧ contents (_file b') = contents (_file demo_written) ∧
    numblocks b' = numblocks demo_written.
Proof.
  assert (H4 : 0 < 4 < 2 ^ 32) by lia.
  assert (Hev : (2 | 4)) by (exists 2; reflexivity).
  assert (Hg : good demo_written = true) by reflexivity.
  assert (Hoff : 0 ≤ 0 * 4) by lia.
  assert (Hn : 0 ≤ 1 * 4) by lia.
  assert (Hin : 0 * 4 + 1 * 4 ≤ file_size demo_written) by (vm_compute; discriminate).
  assert (Hmax : file_size demo_written < 2 ^ 63) by (vm_compute; reflexivity).
  assert (Hdata : demo_heap !! 2%positive = Some [xaa; xbb; xcc; xdd])
    by reflexivity.
  assert (Hlen : 1 * 4 ≤ Z.of_nat (length [xaa; xbb; xcc; xdd])) by (simpl; lia).
  split; [done|].
  exact (read_returns_swapped_blocks 4 demo_written demo_heap 0 1 2%positive
           [xaa; xbb; xcc; xdd] H4 Hev Hg Hoff Hn Hin Hmax Hdata Hlen).
Defined.

Lemma istream_read_past_end n s :
  ios_good s = true → 0 ≤ fpos s →
  Z.of_nat (length (drop (Z.to_nat (fpos s)) (contents s))) < n →
  ios_good (istream_read None n s).1 = false ∧
  contents (istream_read None n s).1 = contents s ∧
  (istream_read None n s).2 = drop (Z.to_nat (fpos s)) (contents s).
Proof.
  intros Hg Hpos Hshort. unfold istream_read. rewrite Hg. cbn [fst snd].
  rewrite take_ge by lia.
  destruct (Z.eqb_spec
              (Z.of_nat (length (drop (Z.to_nat (fpos s)) (contents s)))) n);
    [lia | done].
Qed.

(** X12 (a read past the end of the file): on a good instance, the system
    serving the requests, [multiread] (and [read], at [count = 1]) of a
    range that ends past the end of the file returns: the bytes the file
    has from the offset on replace the head of the caller's array, the pairs
    of the first [count * BS] bytes of the array are then exchanged, stale
    bytes included, the file stays as it was and [good ()] is false
    afterwards.  When the offset is at or past the end of the file the array
    is left with its own first [count * BS] bytes pairwise exchanged. *)
Theorem read_past_the_end BS b (h : heap) index count data arr :
  0 < BS < 2 ^ 32 → (2 | BS) → good b = true →
  0 ≤ index * BS < 2 ^ 63 → 0 < count * BS < 2 ^ 63 →
  file_size b < index * BS + count * BS →
  h !! data = Some arr → count * BS ≤ Z.of_nat (length arr) →
  ∃ b' arr',
    multiread BS quiet index count data b h = Some (b', <[data := arr']> h) ∧
    (count = 1 →
     read BS quiet index data b h = multiread BS quiet index count data b h) ∧
    arr' = swap_pairs
             (take (Z.to_nat (count * BS))
                (drop (Z.to_nat (index * BS)) (contents (_file b))
                 ++ drop (length (drop (Z.to_nat (index * BS))
                                    (contents (_file b)))) arr))
           ++ drop (Z.to_nat (count * BS)) arr ∧
    (file_size b ≤ index * BS →
     arr' = swap_pairs (take (Z.to_nat (count * BS)) arr)
            ++ drop (Z.to_nat (count * BS)) arr) ∧
    good b' = false ∧ contents (_file b') = contents (_file b).
Proof.
  intros HBS Hev Hg Hoff Hn Hshort Hdata Hlen. unfold file_size in *.
  assert (Hone : count = 1 →
            read BS quiet index data b h = multiread BS quiet index count data b h)
    by (intros ->; apply read_multiread; lia).
  revert Hone.
  rewrite (multiread_spec BS HBS Hev _ _ _ _ _ _ arr) by (done || lia).
  cbv zeta. cbn [quiet seek_fails xfer_fails]. rewrite offset_small by lia.
  rewrite seekg_good by (done || lia).
  destruct (istream_read_past_end (count * BS)
              (mk_fstream (contents (_file b)) (index * BS) false false false))
    as (Hbad & Hcont & Hgot);
    [done | cbn [fpos]; lia | cbn [fpos contents]; rewrite length_drop; lia |].
  cbn [fpos contents] in Hgot, Hcont.
  intros Hone. eexists _, _. split; [done|]. split; [exact Hone|].
  rewrite Hgot. split; [done|]. split; [|done].
  intros Hpast. rewrite drop_ge by lia. done.
Qed.

Lemma read_past_the_end_witness :
  (0 < 4 < 2 ^ 32 ∧ (2 | 4) ∧ good demo_backend = true ∧
   0 ≤ 2 * 4 < 2 ^ 63 ∧ 0 < 1 * 4 < 2 ^ 63 ∧
   file_size demo_backend < 2 * 4 + 1 * 4 ∧
   demo_heap !! 2%positive = Some [xaa; xbb; xcc; xdd] ∧
   1 * 4 ≤ Z.of_nat (length [xaa; xbb; xcc; xdd])) ∧
  ∃ b' arr',
    multiread 4 quiet 2 1 2%positive demo_backend demo_heap
    = Some (b', <[2%positive := arr']> demo_heap) ∧
    (1 = 1 →
     read 4 quiet 2 2%positive demo_backend demo_heap
     = multiread 4 quiet 2 1 2%positive demo_backend demo_heap) ∧
    arr' = swap_pairs
             (take (Z.to_nat (1 * 4))
                (drop (Z.to_nat (2 * 4)) (contents (_file demo_backend))
                 ++ drop (length (drop (Z.to_nat (2 * 4))
                                    (contents (_file demo_backend))))
                      [xaa; xbb; xcc; xdd]))
           ++ drop (Z.to_nat (1 * 4)) [xaa; xbb; xcc; xdd] ∧
    (file_size demo_backend ≤ 2 * 4 →
     arr' = swap_pairs (take (Z.to_nat (1 * 4)) [xaa; xbb; xcc; xdd])
            ++ drop (Z.to_nat (1 * 4)) [xaa; xbb; xcc; xdd]) ∧
    good b' = false ∧ contents (_file b') = contents (_file demo_backend).
Proof.
  assert (H4 : 0 < 4 < 2 ^ 32) by lia.
  assert (Hev : (2 | 4)) by (exists 2; reflexivity).
  assert (Hg : good demo_backend = true) by reflexivity.
  assert (Hoff : 0 ≤ 2 * 4 < 2 ^ 63) by lia.
  assert (Hn : 0 < 1 * 4 < 2 ^ 63) by lia.
  assert (Hshort : file_size demo_backend < 2 * 4 + 1 * 4)
    by (vm_compute; reflexivity).
  assert (Hdata : demo_heap !! 2%positive = Some [xaa; xbb; xcc; xdd])
    by reflexivity.
  assert (Hlen : 1 * 4 ≤ Z.of_nat (length [xaa; xbb; xcc; xdd])) by (simpl; lia).
  split; [done|].
  exact (read_past_the_end 4 demo_backend demo_heap 2 1 2%positive
           [xaa; xbb; xcc; xdd] H4 Hev Hg Hoff Hn Hshort Hdata Hlen).
Defined.

(** ** Health: what a failure stops, what keeps an instance healthy *)

Lemma stream_after_frozen BS e r s s' :
  stream_after BS e r s s' → ios_fail s = true → contents s' = contents s.
Proof.
  intros Hs Hf. destruct r; cbn [stream_after] in Hs.
  - by rewrite Hs, istream_read_contents, seekg_contents.
  - destruct Hs as [bytes ->]. unfold ostream_write.
    rewrite (fails_not_good _ (seekp_fail _ _ _ Hf)). apply seekp_contents.
  - by rewrite Hs, istream_read_contents, seekg_contents.
  - destruct Hs as [bytes ->]. unfold ostream_write.
    rewrite (fails_not_good _ (seekp_fail _ _ _ Hf)). apply seekp_contents.
  - rewrite Hs. apply ostream_flush_contents.
  - by rewrite Hs.
Qed.

(** X13 (nothing is written after a failure): on an instance a session can
    see, once [good ()] is false no request changes the file any more,
    whatever the requests are and whatever the system does: writes that
    follow a failure are dropped, and [good ()] stays false. *)
Theorem file_frozen_after_failure BS b rs :
  reachable BS b → good b = false →
  ∀ (h : heap) b' h',
    serve_all BS rs b h = Some (b', h') →
    contents (_file b') = contents (_file b) ∧ good b' = false.
Proof.
  intros Hreach Hbad.
  assert (Hf : ios_fail (_file b) = true)
    by (apply not_good_fails; [by apply (reachable_eof BS) | done]).
  clear Hreach Hbad. revert b Hf.
  induction rs as [|[e r] rs IH]; intros b Hf h b' h' Hrun; simpl in Hrun.
  - injection Hrun as <- <-. split; [done | by apply fails_not_good].
  - destruct (serve BS e r b h) as [[b1 h1]|] eqn:Hstep; [|done].
    destruct (serve_stream _ _ _ _ _ _ _ Hstep) as [_ Hs].
    destruct (IH b1 (stream_after_fail _ _ _ _ _ Hs Hf) _ _ _ Hrun) as [Hc Hg].
    split; [|done]. rewrite Hc. by apply (stream_after_frozen _ _ _ _ _ Hs).
Qed.

Lemma file_frozen_after_failure_witness :
  (reachable 4 demo_failed ∧ good demo_failed = false ∧
   serve_all 4 [(quiet, Write 0 1%positive); (quiet, Flush)]
     demo_failed demo_heap_failed
   = Some (demo_failed, demo_heap_failed)) ∧
  contents (_file demo_failed) = contents (_file demo_failed) ∧
  good demo_failed = false.
Proof.
  assert (Hreach : reachable 4 demo_failed).
  { apply (reachable_serve 4 quiet (Read 2 2%positive) demo_backend demo_heap
             demo_failed demo_heap_failed).
    - apply (reachable_ctor 4 demo_disk quiet "disk" 2 demo_backend None).
      vm_compute. reflexivity.
    - vm_compute. reflexivity. }
  assert (Hbad : good demo_failed = false) by reflexivity.
  assert (Hrun : serve_all 4 [(quiet, Write 0 1%positive); (quiet, Flush)]
                   demo_failed demo_heap_failed
                 = Some (demo_failed, demo_heap_failed))
    by (vm_compute; reflexivity).
  split; [done|].
  exact (file_frozen_after_failure 4 demo_failed
           [(quiet, Write 0 1%positive); (quiet, Flush)] Hreach Hbad
           demo_heap_failed demo_failed demo_heap_failed Hrun).
Defined.

(** After a failure no session changes the file. *)
Lemma serve_all_frozen BS rs :
  ∀ b (h : heap) b' h',
    serve_all BS rs b h = Some (b', h') → ios_fail (_file b) = true →
    contents (_file b') = contents (_file b).
Proof.
  induction rs as [|[e r] rs IH]; intros b h b' h' Hrun Hf; simpl in Hrun.
  - by injection Hrun as <- <-.
  - destruct (serve BS e r b h) as [[b1 h1]|] eqn:Hstep; [|done].
    destruct (serve_stream _ _ _ _ _ _ _ Hstep) as [_ Hs].
    rewrite (IH _ _ _ _ Hrun (stream_after_fail _ _ _ _ _ Hs Hf)).
    by apply (stream_after_frozen _ _ _ _ _ Hs).
Qed.

(** X6 (growth that is refused is not fatal, and is never made up for): when
    the file is shorter than the size given and the system refuses the seek
    that grows it, the constructor still logs the warning and returns an
    instance of [nblocks] blocks; the [put] that follows the seek stores
    nothing, [good ()] is false, and the file is as it was, too short for
    the blocks of the instance.  Whatever requests follow, and whatever the
    system does with them, that stays so. *)
Theorem ctor_growth_failure BS fs e fname nblocks c :
  0 < BS < 2 ^ 32 → 0 < nblocks < 2 ^ 31 →
  openable fs = Some c → Z.of_nat (length c) < nblocks * BS →
  seek_fails e = true →
  ∃ b,
    BSwap16_ctor BS fs e fname nblocks
    = Constructed b (Some (Z.of_nat (length c), nblocks * BS)) ∧
    good b = false ∧ numblocks b = nblocks ∧
    contents (_file b) = c ∧ ¬ covers BS b ∧
    ∀ rs (h : heap) b' h',
      serve_all BS rs b h = Some (b', h') →
      good b' = false ∧ numblocks b' = nblocks ∧
      contents (_file b') = c ∧ ¬ covers BS b'.
Proof.
  intros HBS Hn Hopen Hlen Hsf.
  rewrite (ctor_opened BS fs e fname nblocks c) by (done || nia).
  unfold resolve, blocksize.
  destruct (Z.eqb_spec nblocks 0) as [|_]; [lia|].
  rewrite offset_small by nia.
  destruct (Z.ltb_spec (Z.of_nat (length c)) (nblocks * BS)) as [_|]; [|lia].
  rewrite streamoff_of_small by nia. rewrite Hsf.
  unfold ostream_put, seekp, pubseekpos. cbn [ios_fail failbit badbit orb].
  unfold ostream_write. rewrite set_failbit_not_good.
  eexists. split; [done|].
  assert (Hnb : ∀ f, numblocks (mk_BSwap16 f (int_of nblocks)) = nblocks)
    by (intros f; apply numblocks_int_of; lia).
  split; [apply set_failbit_not_good|]. split; [apply Hnb|].
  split; [done|].
  split; [unfold covers, blocksize, file_size; rewrite Hnb;
          cbn [_file set_failbit contents]; lia|].
  intros rs h b' h' Hrun.
  assert (Hfail : ios_fail
                    (_file (mk_BSwap16
                              (set_failbit
                                 (mk_fstream c (Z.of_nat (length c) + 0)
                                    false false false))
                              (int_of nblocks))) = true)
    by apply set_failbit_fail.
  pose proof (serve_all_fail _ _ _ _ _ _ Hrun Hfail) as Hfail'.
  pose proof (serve_all_frozen _ _ _ _ _ _ Hrun Hfail) as Hsame.
  destruct (serve_all_keeps_size _ _ _ _ _ _ Hrun) as [_ Hcount].
  rewrite Hnb in Hcount. cbn [_file set_failbit contents] in Hsame.
  split; [by apply fails_not_good|]. split; [done|]. split; [done|].
  unfold covers, blocksize, file_size. rewrite Hcount, Hsame. lia.
Qed.

Lemma ctor_growth_failure_witness :
  (0 < 4 < 2 ^ 32 ∧ 0 < 2 < 2 ^ 31 ∧
   openable (mk_filesystem (Some [x0a; x0b; x0c]) false) = Some [x0a; x0b; x0c] ∧
   Z.of_nat (length [x0a; x0b; x0c]) < 2 * 4 ∧
   seek_fails (mk_io true None false) = true) ∧
  ∃ b,
    BSwap16_ctor 4 (mk_filesystem (Some [x0a; x0b; x0c]) false)
      (mk_io true None false) "disk" 2
    = Constructed b (Some (Z.of_nat (length [x0a; x0b; x0c]), 2 * 4)) ∧
    good b = false ∧ numblocks b = 2 ∧
    contents (_file b) = [x0a; x0b; x0c] ∧ ¬ covers 4 b ∧
    ∀ rs (h : heap) b' h',
      serve_all 4 rs b h = Some (b', h') →
      good b' = false ∧ numblocks b' = 2 ∧
      contents (_file b') = [x0a; x0b; x0c] ∧ ¬ covers 4 b'.
Proof.
  assert (H4 : 0 < 4 < 2 ^ 32) by lia.
  assert (H2 : 0 < 2 < 2 ^ 31) by lia.
  assert (Hopen : openable (mk_filesystem (Some [x0a; x0b; x0c]) false)
                  = Some [x0a; x0b; x0c]) by reflexivity.
  assert (Hlen : Z.of_nat (length [x0a; x0b; x0c]) < 2 * 4) by (simpl; lia).
  assert (Hsf : seek_fails (mk_io true None false) = true) by reflexivity.
  split; [done|].
  exact (ctor_growth_failure 4 (mk_filesystem (Some [x0a; x0b; x0c]) false)
           (mk_io true None false) "disk" 2 [x0a; x0b; x0c]
           H4 H2 Hopen Hlen Hsf).
Defined.

(** On a good instance, the system serving the requests: the instance that
    [multiread] within the file and [multiwrite] leave. *)
Lemma multiread_in_file BS b (h : heap) index count data arr :
  0 < BS < 2 ^ 32 → (2 | BS) → good b = true →
  0 ≤ index * BS → 0 ≤ count * BS →
  index * BS + count * BS ≤ file_size b → file_size b < 2 ^ 63 →
  h !! data = Some arr → count * BS ≤ Z.of_nat (length arr) →
  multiread BS quiet index count data b h
  = Some (mk_BSwap16
            (mk_fstream (contents (_file b)) (index * BS + count * BS)
               false false false)
            (_nblocks b),
          <[data := swap_pairs
                      (take (Z.to_nat (count * BS))
                         (drop (Z.to_nat (index * BS)) (contents (_file b))))
                    ++ drop (Z.to_nat (count * BS)) arr]> h).
Proof.
  intros HBS Hev Hg Hoff Hn Hin Hmax Hdata Hlen. unfold file_size in *.
  rewrite (multiread_spec BS HBS Hev _ _ _ _ _ _ arr) by (done || lia).
  cbv zeta. cbn [quiet seek_fails xfer_fails]. rewrite offset_small by lia.
  rewrite seekg_good by (done || lia).
  rewrite istream_read_good;
    [| done | cbn [contents fpos]; rewrite length_drop; lia | lia].
  cbn [fst snd contents fpos].
  by rewrite take_app_length' by (rewrite length_take, length_drop; lia).
Qed.

Lemma multiwrite_good BS b (h : heap) index count data arr :
  0 < BS < 2 ^ 32 → (2 | BS) → good b = true →
  0 ≤ index * BS → 0 ≤ count * BS → index * BS + count * BS < 2 ^ 63 →
  h !! data = Some arr → count * BS ≤ Z.of_nat (length arr) →
  multiwrite BS quiet index count data b h
  = Some (mk_BSwap16
            (mk_fstream
               (pwrite (Z.to_nat (index * BS))
                  (swap_pairs (take (Z.to_nat (count * BS)) arr))
                  (contents (_file b)))
               (index * BS + count * BS) false false false)
            (_nblocks b),
          h).
Proof.
  intros HBS Hev Hg Hoff Hn Hmax Hdata Hlen.
  rewrite (multiwrite_spec BS HBS Hev _ _ _ _ _ _ arr) by (done || lia).
  cbn [quiet seek_fails xfer_fails]. rewrite offset_small by lia.
  rewrite seekp_good by (done || lia). rewrite ostream_write_good by done.
  cbn [contents fpos]. rewrite swap_pairs_length, length_take.
  rewrite Nat.min_l by lia. by rewrite Z2Nat.id by lia.
Qed.

(** One request within the device, served without a fault, keeps a healthy
    instance healthy, its file and block count as long as they were, and
    every array of the caller as long as it was. *)
Lemma serve_healthy BS r b (h : heap) :
  0 < BS < 2 ^ 32 → (2 | BS) →
  good b = true → covers BS b → off_t_sized b →
  in_range b r → has_room BS r h →
  ∃ b' h',
    serve BS quiet r b h = Some (b', h') ∧
    good b' = true ∧ numblocks b' = numblocks b ∧
    file_size b' = file_size b ∧
    (∀ l arr, h !! l = Some arr →
              ∃ arr', h' !! l = Some arr' ∧ length arr' = length arr).
Proof.
  intros HBS Hev Hg Hcov Hsz Hin Hroom.
  assert (Hrd : ∀ index count data,
            0 ≤ index → 0 ≤ count → index + count ≤ numblocks b →
            (∃ arr, h !! data = Some arr ∧ count * BS ≤ Z.of_nat (length arr)) →
            ∃ b' h',
              multiread BS quiet index count data b h = Some (b', h') ∧
              good b' = true ∧ numblocks b' = numblocks b ∧
              file_size b' = file_size b ∧
              (∀ l arr, h !! l = Some arr →
                        ∃ arr', h' !! l = Some arr' ∧ length arr' = length arr)).
  { intros index count data Hi Hc Hr (arr & Hdata & Hlen).
    destruct (in_range_offsets BS b index count) as (Ho1 & Ho2 & Ho3);
      [lia | done..|].
    assert (index * BS + count * BS ≤ file_size b)
      by (unfold covers, blocksize in Hcov; nia).
    rewrite (multiread_in_file BS b h index count data arr) by done.
    eexists _, _. split; [done|]. split; [done|]. split; [done|].
    split; [done|]. intros l a Hl. destruct (decide (l = data)) as [->|Hne].
    - rewrite lookup_insert_eq. eexists. split; [done|].
      assert (a = arr) as -> by congruence.
      unfold file_size in *.
      rewrite length_app, swap_pairs_length, length_take, !length_drop. lia.
    - rewrite lookup_insert_ne by done. by exists a. }
  assert (Hwr : ∀ index count data,
            0 ≤ index → 0 ≤ count → index + count ≤ numblocks b →
            (∃ arr, h !! data = Some arr ∧ count * BS ≤ Z.of_nat (length arr)) →
            ∃ b' h',
              multiwrite BS quiet index count data b h = Some (b', h') ∧
              good b' = true ∧ numblocks b' = numblocks b ∧
              file_size b' = file_size b ∧
              (∀ l arr, h !! l = Some arr →
                        ∃ arr', h' !! l = Some arr' ∧ length arr' = length arr)).
  { intros index count data Hi Hc Hr (arr & Hdata & Hlen).
    destruct (in_range_offsets BS b index count) as (Ho1 & Ho2 & Ho3);
      [lia | done..|].
    assert (index * BS + count * BS ≤ file_size b)
      by (unfold covers, blocksize in Hcov; nia).
    rewrite (multiwrite_good BS b h index count data arr) by done.
    eexists _, _. split; [done|]. split; [done|]. split; [done|].
    split; [|by eauto]. unfold file_size in *. cbn [_file contents].
    rewrite pwrite_within; [done|].
    rewrite swap_pairs_length, length_take. lia. }
  destruct r as [index data|index data|index count data|index count data| |index count];
    cbn [serve in_range has_room request_bytes] in *.
  - rewrite read_multiread by lia. apply Hrd; try lia.
    destruct Hroom as (arr & ? & ?). exists arr. split; [done | lia].
  - rewrite write_multiwrite by lia. apply Hwr; try lia.
    destruct Hroom as (arr & ? & ?). exists arr. split; [done | lia].
  - destruct Hin as (? & ? & ?). by apply Hrd.
  - destruct Hin as (? & ? & ?). by apply Hwr.
  - eexists _, _. split; [done|].
    unfold flush, good, numblocks, file_size, ostream_flush in *.
    cbn [_file _nblocks quiet sync_fails]. rewrite Hg.
    repeat split; [done..|]. intros l arr Hl. by exists arr.
  - eexists _, _. split; [done|]. unfold trim.
    repeat split; [done..|]. intros l arr Hl. by exists arr.
Qed.

Lemma has_room_lengths BS r (h h' : heap) :
  (∀ l arr, h !! l = Some arr →
            ∃ arr', h' !! l = Some arr' ∧ length arr' = length arr) →
  has_room BS r h → has_room BS r h'.
Proof.
  intros Hlen. destruct r; cbn [has_room]; try done;
    intros (arr & Hdata & Hfit);
    destruct (Hlen _ _ Hdata) as (arr' & Hdata' & Heq);
    exists arr'; (split; [done | lia]).
Qed.

Lemma in_range_numblocks b b' r :
  numblocks b' = numblocks b → in_range b r → in_range b' r.
Proof. intros Hnb. destruct r; cbn [in_range]; by rewrite ?Hnb. Qed.

(** X14 (no failure, no degradation): a session of requests that address
    blocks of the device only, with arrays that have room, served without a
    fault on a healthy instance whose file covers its blocks, runs to its
    end and leaves the instance healthy, with the same block count and a
    file of the same size. *)
Theorem healthy_session BS rs :
  0 < BS < 2 ^ 32 → (2 | BS) →
  ∀ b (h : heap),
    good b = true → covers BS b → off_t_sized b →
    Forall (λ er, er.1 = quiet ∧ in_range b er.2 ∧ has_room BS er.2 h) rs →
    ∃ b' h',
      serve_all BS rs b h = Some (b', h') ∧
      good b' = true ∧ numblocks b' = numblocks b ∧
      file_size b' = file_size b ∧ covers BS b'.
Proof.
  intros HBS Hev.
  induction rs as [|[e r] rs IH]; intros b h Hg Hcov Hsz Hall.
  - by exists b, h.
  - apply Forall_cons in Hall as [(He & Hin & Hroom) Hall]. cbn [fst snd] in *.
    subst e.
    destruct (serve_healthy BS r b h HBS Hev Hg Hcov Hsz Hin Hroom)
      as (b1 & h1 & Hstep & Hg1 & Hnb1 & Hsz1 & Hlen1).
    assert (Hcov1 : covers BS b1) by (by eapply serve_covers).
    destruct (IH b1 h1) as (b' & h' & Hrun & Hg' & Hnb' & Hsz' & Hcov').
    + done.
    + done.
    + unfold off_t_sized in *. lia.
    + eapply Forall_impl; [exact Hall|]. intros [e' r'] (? & ? & ?).
      cbn [fst snd] in *. split; [done|].
      split; [by eapply in_range_numblocks | by eapply has_room_lengths].
    + exists b', h'. cbn [serve_all]. rewrite Hstep.
      split; [done|]. split; [done|]. split; [congruence|].
      split; [lia | done].
Qed.

Lemma healthy_session_witness :
  (0 < 4 < 2 ^ 32 ∧ (2 | 4) ∧ good demo_backend = true ∧
   covers 4 demo_backend ∧ off_t_sized demo_backend ∧
   Forall (λ er, er.1 = quiet ∧ in_range demo_backend er.2
                 ∧ has_room 4 er.2 demo_heap)
     [(quiet, Write 1 1%positive); (quiet, Multiread 0 1 2%positive);
      (quiet, Flush)]) ∧
  ∃ b' h',
    serve_all 4
      [(quiet, Write 1 1%positive); (quiet, Multiread 0 1 2%positive);
       (quiet, Flush)] demo_backend demo_heap
    = Some (b', h') ∧
    good b' = true ∧ numblocks b' = numblocks demo_backend ∧
    file_size b' = file_size demo_backend ∧ covers 4 b'.
Proof.
  assert (H4 : 0 < 4 < 2 ^ 32) by lia.
  assert (Hev : (2 | 4)) by (exists 2; reflexivity).
  assert (Hg : good demo_backend = true) by reflexivity.
  assert (Hcov : covers 4 demo_backend) by (vm_compute; discriminate).
  assert (Hoff : off_t_sized demo_backend) by (vm_compute; reflexivity).
  assert (Hall :
    Forall (λ er, er.1 = quiet ∧ in_range demo_backend er.2
                  ∧ has_room 4 er.2 demo_heap)
      [(quiet, Write 1 1%positive); (quiet, Multiread 0 1 2%positive);
       (quiet, Flush)]).
  { repeat apply Forall_cons_2; [| | |apply Forall_nil_2];
      (split; [reflexivity|]); cbn [fst snd in_range has_room request_bytes].
    - split; [vm_compute; split; discriminate || reflexivity|].
      exists [x01; x02; x03; x04]. split; [reflexivity | simpl; lia].
    - split; [vm_compute; repeat split; discriminate|].
      exists [xaa; xbb; xcc; xdd]. split; [reflexivity | simpl; lia].
    - done. }
  split; [done|].
  exact (healthy_session 4
           [(quiet, Write 1 1%positive); (quiet, Multiread 0 1 2%positive);
            (quiet, Flush)] H4 Hev demo_backend demo_heap Hg Hcov Hoff Hall).
Defined.

(** ** Odd transfer sizes *)

(** With [n] odd the loop runs as it would for [n + 1]. *)
Lemma swap_loop_parity d n fuel :
  Nat.Odd n →
  ∀ i (h : heap), Nat.Even i →
    swap_loop fuel d i n h = swap_loop fuel d i (S n) h.
Proof.
  intros [c Hc]. induction fuel as [|fuel IH]; intros i h [a Ha]; simpl.
  - destruct (decide (i < n)%nat), (decide (i < S n)%nat); (done || lia).
  - destruct (decide (i < n)%nat), (decide (i < S n)%nat); try (done || lia).
    destruct (load d i h) as [x|]; [|done].
    destruct (load d (i + 1) h) as [y|]; [|done].
    destruct (store d i y h) as [h1|]; [|done].
    destruct (store d (i + 1) x h1) as [h2|]; [|done].
    apply IH. exists (S a). lia.
Qed.

(** The loop leaves its array when the array is too short for the pairs it
    exchanges. *)
Lemma swap_loop_oob d n fuel :
  ∀ i (h : heap) arr,
    h !! d = Some arr → (i < n)%nat →
    (length arr < n)%nat ∨ (length arr = n ∧ Nat.Odd (n - i)) →
    swap_loop fuel d i n h = None.
Proof.
  induction fuel as [|fuel IH]; intros i h arr Hd Hi Hshort; simpl;
    rewrite decide_True by done; [done|].
  rewrite (load_lookup _ _ _ _ Hd).
  destruct (arr !! i) as [x|] eqn:Hx; [|done].
  rewrite (load_lookup _ _ _ _ Hd).
  destruct (arr !! (i + 1)%nat) as [y|] eqn:Hy; [|done].
  apply lookup_lt_Some in Hx, Hy.
  rewrite (store_insert _ _ _ _ _ Hd) by done.
  rewrite (store_insert d (i + 1) x _ (<[i := y]> arr))
    by (rewrite ?lookup_insert_eq, ?length_insert; done).
  assert (Hnext : (i + 2 < n)%nat).
  { destruct Hshort as [|[Hlen [c Hc]]]; lia. }
  apply (IH _ _ (<[(i + 1)%nat := x]> (<[i := y]> arr))).
  - by rewrite lookup_insert_eq.
  - done.
  - rewrite !length_insert. destruct Hshort as [|[Hlen [c Hc]]]; [by left|].
    right. split; [done|]. exists (c - 1)%nat. lia.
Qed.

(** X15 (odd transfer size): for an odd transfer size [n] the last round of
    the loop exchanges the bytes at offsets [n - 1] and [n], one byte past
    the [n] bytes transferred.  On an array of [n] bytes or fewer that
    access is outside the array; on a longer array the loop ends and has
    exchanged the pairs of the first [n + 1] bytes. *)
Theorem odd_transfer_size d n (h : heap) arr :
  Nat.Odd n → h !! d = Some arr →
  ((length arr ≤ n)%nat → bswap16 d n h = None) ∧
  ((n < length arr)%nat →
   bswap16 d n h
   = Some (<[d := swap_pairs (take (S n) arr) ++ drop (S n) arr]> h)).
Proof.
  intros Hodd Hd. unfold bswap16. split.
  - intros Hlen. apply (swap_loop_oob _ _ _ _ _ arr); [done | | ].
    + destruct Hodd as [c Hc]. lia.
    + destruct (decide (length arr = n)) as [Heq|]; [|left; lia].
      right. split; [done|]. by rewrite Nat.sub_0_r.
  - intros Hlen. rewrite swap_loop_parity; [|done | by exists 0%nat].
    destruct Hodd as [c Hc].
    pose proof (swap_loop_pairs d (S c) n [] (take (S n) arr) (drop (S n) arr) h)
      as Hloop.
    simpl in Hloop. rewrite length_take_le in Hloop by lia.
    apply Hloop; [lia | lia |]. by rewrite <- (take_drop (S n) arr) in Hd.
Qed.

Lemma odd_transfer_size_witness :
  (Nat.Odd 3 ∧
   ({[ 1%positive := [x0a; x0b; x0c; x0d] ]} : heap) !! 1%positive
   = Some [x0a; x0b; x0c; x0d]) ∧
  ((length [x0a; x0b; x0c; x0d] ≤ 3)%nat →
   bswap16 1%positive 3 {[ 1%positive := [x0a; x0b; x0c; x0d] ]} = None) ∧
  ((3 < length [x0a; x0b; x0c; x0d])%nat →
   bswap16 1%positive 3 {[ 1%positive := [x0a; x0b; x0c; x0d] ]}
   = Some (<[1%positive := swap_pairs (take 4 [x0a; x0b; x0c; x0d])
                           ++ drop 4 [x0a; x0b; x0c; x0d]]>
             {[ 1%positive := [x0a; x0b; x0c; x0d] ]})).
Proof.
  assert (Hodd : Nat.Odd 3) by (exists 1%nat; reflexivity).
  assert (Hd : ({[ 1%positive := [x0a; x0b; x0c; x0d] ]} : heap) !! 1%positive
               = Some [x0a; x0b; x0c; x0d]) by reflexivity.
  split; [done|].
  exact (odd_transfer_size 1%positive 3
           {[ 1%positive := [x0a; x0b; x0c; x0d] ]} [x0a; x0b; x0c; x0d]
           Hodd Hd).
Defined.

(** X16 (odd block size): when the number of bytes to write is odd,
    [write] and [multiwrite] have no defined result, whatever the instance,
    the memory and the system: the scratch array has exactly that many
    bytes, and the loop reads and writes the byte after its last. *)
Theorem write_with_odd_size BS e index count data b (h : heap) :
  0 < BS < 2 ^ 32 → 0 < count * BS < 2 ^ 63 → Z.Odd (count * BS) →
  multiwrite BS e index count data b h = None ∧
  (count = 1 → write BS e index data b h = None).
Proof.
  intros HBS Hn [m Hm].
  assert (Hmulti : multiwrite BS e index count data b h = None).
  { unfold multiwrite, new_array, blocksize.
    rewrite (size_t_of_small (count * BS)) by lia.
    set (n := Z.to_nat (count * BS)). set (d := fresh (dom h)).
    destruct (memcpy d data n (<[d := replicate n x00]> h)) as [h2|] eqn:Hcp;
      [|done].
    assert (Harr : ∃ arr, h2 !! d = Some arr ∧ length arr = n).
    { unfold memcpy in Hcp. rewrite lookup_insert_eq in Hcp.
      destruct (<[d := replicate n x00]> h !! data) as [s|]; [|done].
      case_decide as Hfit; [|done]. injection Hcp as <-.
      rewrite lookup_insert_eq. eexists. split; [done|].
      rewrite length_app, length_take, length_drop, length_replicate. lia. }
    destruct Harr as (arr & Hd & Hlen).
    unfold bswap16. rewrite (swap_loop_oob d n n 0 h2 arr); [done | done | |].
    - unfold n. lia.
    - right. split; [done|]. rewrite Nat.sub_0_r.
      exists (Z.to_nat m). unfold n. lia. }
  split; [done|]. intros ->. by rewrite write_multiwrite by lia.
Qed.

Lemma write_with_odd_size_witness :
  (0 < 3 < 2 ^ 32 ∧ 0 < 1 * 3 < 2 ^ 63 ∧ Z.Odd (1 * 3)) ∧
  multiwrite 3 quiet 0 1 1%positive demo_backend demo_heap = None ∧
  (1 = 1 → write 3 quiet 0 1%positive demo_backend demo_heap = None).
Proof.
  assert (H3 : 0 < 3 < 2 ^ 32) by lia.
  assert (Hn : 0 < 1 * 3 < 2 ^ 63) by lia.
  assert (Hodd : Z.Odd (1 * 3)) by (exists 1; reflexivity).
  split; [done|].
  exact (write_with_odd_size 3 quiet 0 1 1%positive demo_backend demo_heap
           H3 Hn Hodd).
Defined.

(** ** How transfers compose *)

(** X17 (a multi-block write in two parts): on a good instance, the system
    serving the requests, [multiwrite] of [c1 + c2] blocks from an array
    leaves the instance (file, position and state) and the memory exactly
    as [multiwrite] of the first [c1] blocks followed by [multiwrite] of
    [c2] blocks at index [index + c1] from an array that holds the bytes of
    the first array from offset [c1 * BS] on. *)
Theorem multiwrite_in_two_parts BS b (h : heap) index c1 c2 data data2 arr :
  0 < BS < 2 ^ 32 → (2 | BS) → good b = true →
  0 ≤ index → 0 ≤ c1 → 0 ≤ c2 → (index + c1 + c2) * BS < 2 ^ 63 →
  h !! data = Some arr → (c1 + c2) * BS ≤ Z.of_nat (length arr) →
  h !! data2 = Some (drop (Z.to_nat (c1 * BS)) arr) →
  ∃ b1 b2,
    multiwrite BS quiet index c1 data b h = Some (b1, h) ∧
    multiwrite BS quiet (index + c1) c2 data2 b1 h = Some (b2, h) ∧
    multiwrite BS quiet index (c1 + c2) data b h = Some (b2, h).
Proof.
  intros HBS Hev Hg Hi Hc1 Hc2 Hmax Hdata Hlen Hdata2.
  assert (0 ≤ index * BS ∧ 0 ≤ c1 * BS ∧ 0 ≤ c2 * BS) as (Ho & Hn1 & Hn2)
    by (repeat split; apply Z.mul_nonneg_nonneg; lia).
  assert (Hsum : (index + c1 + c2) * BS = index * BS + c1 * BS + c2 * BS) by lia.
  rewrite (multiwrite_good BS b h index c1 data arr) by (done || lia).
  eexists _, _. split; [done|].
  rewrite (multiwrite_good BS _ h (index + c1) c2 data2
             (drop (Z.to_nat (c1 * BS)) arr));
    [| done | done | done | lia | lia | lia | done
     | rewrite length_drop; lia].
  rewrite (multiwrite_good BS b h index (c1 + c2) data arr) by (done || lia).
  cbn [_file _nblocks contents]. split; [reflexivity|]. symmetry.
  do 4 f_equal; [|lia].
  set (n1 := Z.to_nat (c1 * BS)). set (n2 := Z.to_nat (c2 * BS)).
  assert (HSW1 : length (swap_pairs (take n1 arr)) = n1)
    by (rewrite swap_pairs_length, length_take; lia).
  replace (Z.to_nat ((index + c1) * BS))
    with (Z.to_nat (index * BS) + length (swap_pairs (take n1 arr)))%nat
    by (rewrite HSW1; lia).
  rewrite pwrite_pwrite. f_equal.
  replace (Z.to_nat ((c1 + c2) * BS)) with (n1 + n2)%nat by lia.
  rewrite <- take_take_drop.
  rewrite swap_pairs_app; [done|].
  rewrite length_take_le by lia. apply (bytes_even BS Hev).
Qed.

Lemma multiwrite_in_two_parts_witness :
  (0 < 2 < 2 ^ 32 ∧ (2 | 2) ∧ good demo_backend = true ∧
   0 ≤ 1 ∧ 0 ≤ 1 ∧ 0 ≤ 1 ∧ (1 + 1 + 1) * 2 < 2 ^ 63 ∧
   demo_heap_failed !! 1%positive = Some [x01; x02; x03; x04] ∧
   (1 + 1) * 2 ≤ Z.of_nat (length [x01; x02; x03; x04]) ∧
   <[3%positive := [x03; x04]]> demo_heap_failed !! 3%positive
   = Some (drop (Z.to_nat (1 * 2)) [x01; x02; x03; x04])) ∧
  ∃ b1 b2,
    multiwrite 2 quiet 1 1 1%positive demo_backend
      (<[3%positive := [x03; x04]]> demo_heap_failed)
    = Some (b1, <[3%positive := [x03; x04]]> demo_heap_failed) ∧
    multiwrite 2 quiet (1 + 1) 1 3%positive b1
      (<[3%positive := [x03; x04]]> demo_heap_failed)
    = Some (b2, <[3%positive := [x03; x04]]> demo_heap_failed) ∧
    multiwrite 2 quiet 1 (1 + 1) 1%positive demo_backend
      (<[3%positive := [x03; x04]]> demo_heap_failed)
    = Some (b2, <[3%positive := [x03; x04]]> demo_heap_failed).
Proof.
  assert (H2 : 0 < 2 < 2 ^ 32) by lia.
  assert (Hev : (2 | 2)) by (exists 1; reflexivity).
  assert (Hg : good demo_backend = true) by reflexivity.
  assert (H0 : 0 ≤ 1) by lia.
  assert (Hmax : (1 + 1 + 1) * 2 < 2 ^ 63) by lia.
  assert (Hdata : demo_heap_failed !! 1%positive = Some [x01; x02; x03; x04])
    by reflexivity.
  assert (Hdata' : <[3%positive := [x03; x04]]> demo_heap_failed !! 1%positive
                   = Some [x01; x02; x03; x04]) by reflexivity.
  assert (Hlen : (1 + 1) * 2 ≤ Z.of_nat (length [x01; x02; x03; x04]))
    by (simpl; lia).
  assert (Hdata2 : <[3%positive := [x03; x04]]> demo_heap_failed !! 3%positive
                   = Some (drop (Z.to_nat (1 * 2)) [x01; x02; x03; x04]))
    by reflexivity.
  split; [done|].
  exact (multiwrite_in_two_parts 2 demo_backend
           (<[3%positive := [x03; x04]]> demo_heap_failed) 1 1 1
           1%positive 3%positive [x01; x02; x03; x04]
           H2 Hev Hg H0 H0 H0 Hmax Hdata' Hlen Hdata2).
Defined.

Lemma pwrite_other_window pos bytes f pos' n :
  (pos' + n ≤ length f)%nat →
  (pos' + n ≤ pos ∨ pos + length bytes ≤ pos')%nat →
  take n (drop pos' (pwrite pos bytes f)) = take n (drop pos' f).
Proof.
  intros Hin Hout. apply list_eq. intros t.
  destruct (decide (t < n)%nat).
  - rewrite !lookup_take_lt, !lookup_drop by done.
    apply pwrite_outside; lia.
  - by rewrite !lookup_take_ge by lia.
Qed.

(** X18 (blocks do not disturb each other): on a good instance, the system
    serving the requests, [read] of a block that lies within the file
    leaves the same bytes in the caller's array whether or not a [write] of
    another block, anywhere, has been made just before. *)
Theorem write_leaves_other_blocks BS b (h : heap) i j c r C B :
  0 < BS < 2 ^ 32 → (2 | BS) → good b = true →
  0 ≤ i → (i + 1) * BS < 2 ^ 63 →
  0 ≤ j → (j + 1) * BS ≤ file_size b → file_size b < 2 ^ 63 → i ≠ j →
  h !! c = Some C → BS ≤ Z.of_nat (length C) →
  h !! r = Some B → BS ≤ Z.of_nat (length B) →
  ∃ b1 b2 b2' h2,
    write BS quiet i c b h = Some (b1, h) ∧
    read BS quiet j r b1 h = Some (b2, h2) ∧
    read BS quiet j r b h = Some (b2', h2).
Proof.
  intros HBS Hev Hg Hi Himax Hj Hjin Hmax Hne HC HlenC HB HlenB.
  assert (0 ≤ i * BS ∧ 0 ≤ j * BS) as (Hio & Hjo)
    by (split; apply Z.mul_nonneg_nonneg; lia).
  unfold file_size in *.
  rewrite write_multiwrite, !read_multiread by lia.
  rewrite (multiwrite_good BS b h i 1 c C) by (done || lia).
  set (SW := swap_pairs (take (Z.to_nat (1 * BS)) C)).
  assert (HSW : length SW = Z.to_nat BS)
    by (unfold SW; rewrite swap_pairs_length, length_take; lia).
  assert (Hlen1 : (length (contents (_file b))
                   ≤ length (pwrite (Z.to_nat (i * BS)) SW (contents (_file b))))%nat)
    by apply pwrite_grows.
  assert (Hlen1' : Z.of_nat (length (pwrite (Z.to_nat (i * BS)) SW
                                       (contents (_file b)))) < 2 ^ 63).
  { rewrite pwrite_length by (intros HE; rewrite HE in HSW; simpl in HSW; lia).
    lia. }
  eexists _, _, _, _. split; [done|]. rewrite ?read_multiread by lia.
  rewrite (multiread_in_file BS b h j 1 r B);
    [| done | done | done | lia | lia | unfold file_size; lia
     | unfold file_size; lia | done | lia].
  rewrite (multiread_in_file BS _ h j 1 r B);
    [| done | done | done | lia | lia
     | unfold file_size; cbn [_file contents]; lia
     | unfold file_size; cbn [_file contents]; lia | done | lia].
  cbn [_file contents _nblocks].
  rewrite pwrite_other_window; [done | lia |].
  rewrite HSW. destruct (Z.lt_ge_cases i j); [right | left]; nia.
Qed.

Lemma write_leaves_other_blocks_witness :
  (0 < 4 < 2 ^ 32 ∧ (2 | 4) ∧ good demo_backend = true ∧
   0 ≤ 0 ∧ (0 + 1) * 4 < 2 ^ 63 ∧
   0 ≤ 1 ∧ (1 + 1) * 4 ≤ file_size demo_backend ∧
   file_size demo_backend < 2 ^ 63 ∧ 0 ≠ 1 ∧
   demo_heap !! 1%positive = Some [x01; x02; x03; x04] ∧
   4 ≤ Z.of_nat (length [x01; x02; x03; x04]) ∧
   demo_heap !! 2%positive = Some [xaa; xbb; xcc; xdd] ∧
   4 ≤ Z.of_nat (length [xaa; xbb; xcc; xdd])) ∧
  ∃ b1 b2 b2' h2,
    write 4 quiet 0 1%positive demo_backend demo_heap = Some (b1, demo_heap) ∧
    read 4 quiet 1 2%positive b1 demo_heap = Some (b2, h2) ∧
    read 4 quiet 1 2%positive demo_backend demo_heap = Some (b2', h2).
Proof.
  assert (H4 : 0 < 4 < 2 ^ 32) by lia.
  assert (Hev : (2 | 4)) by (exists 2; reflexivity).
  assert (Hg : good demo_backend = true) by reflexivity.
  assert (Hi : 0 ≤ 0) by lia.
  assert (Himax : (0 + 1) * 4 < 2 ^ 63) by lia.
  assert (Hj : 0 ≤ 1) by lia.
  assert (Hjin : (1 + 1) * 4 ≤ file_size demo_backend) by (vm_compute; discriminate).
  assert (Hmax : file_size demo_backend < 2 ^ 63) by (vm_compute; reflexivity).
  assert (Hne : 0 ≠ 1) by lia.
  assert (HC : demo_heap !! 1%positive = Some [x01; x02; x03; x04]) by reflexivity.
  assert (HlenC : 4 ≤ Z.of_nat (length [x01; x02; x03; x04])) by (simpl; lia).
  assert (HB : demo_heap !! 2%positive = Some [xaa; xbb; xcc; xdd]) by reflexivity.
  assert (HlenB : 4 ≤ Z.of_nat (length [xaa; xbb; xcc; xdd])) by (simpl; lia).
  split; [done|].
  exact (write_leaves_other_blocks 4 demo_backend demo_heap 0 1
           1%positive 2%positive [x01; x02; x03; x04] [xaa; xbb; xcc; xdd]
           H4 Hev Hg Hi Himax Hj Hjin Hmax Hne HC HlenC HB HlenB).
Defined.

(** ** After a failure, and past [2^31] blocks *)

(** X19 (a read after a failure delivers nothing): on an instance a session
    can see on which [good ()] is false, [multiread] (and [read], at
    [count = 1]) still returns, whatever the system does, and takes no byte
    from the file: the caller's array is left with its own first
    [count * BS] bytes pairwise exchanged. *)
Theorem read_after_failure BS e b (h : heap) index count data arr :
  0 < BS < 2 ^ 32 → (2 | BS) →
  reachable BS b → good b = false →
  0 ≤ count * BS < 2 ^ 63 →
  h !! data = Some arr → count * BS ≤ Z.of_nat (length arr) →
  ∃ b',
    multiread BS e index count data b h
    = Some (b', <[data := swap_pairs (take (Z.to_nat (count * BS)) arr)
                          ++ drop (Z.to_nat (count * BS)) arr]> h) ∧
    (count = 1 →
     read BS e index data b h = multiread BS e index count data b h) ∧
    good b' = false ∧ contents (_file b') = contents (_file b).
Proof.
  intros HBS Hev Hreach Hbad Hn Hdata Hlen.
  assert (Hf : ios_fail (_file b) = true)
    by (apply not_good_fails; [by apply (reachable_eof BS) | done]).
  assert (Hone : count = 1 →
            read BS e index data b h = multiread BS e index count data b h)
    by (intros ->; apply read_multiread; lia).
  revert Hone.
  rewrite (multiread_spec BS HBS Hev _ _ _ _ _ _ arr) by (done || lia).
  cbv zeta.
  set (s := seekg (seek_fails e) (streamoff_of (size_t_of (index * BS))) (_file b)).
  assert (Hs : ios_fail s = true) by (by apply seekg_fail).
  assert (Hrd : istream_read (xfer_fails e) (count * BS) s = (set_failbit s, []))
    by (unfold istream_read; by rewrite (fails_not_good _ Hs)).
  rewrite Hrd. cbn [fst snd app length drop].
  intros Hone. eexists. split; [done|]. split; [exact Hone|].
  unfold good. cbn [_file]. split; [apply set_failbit_not_good|].
  cbn [set_failbit contents]. apply seekg_contents.
Qed.

Lemma read_after_failure_witness :
  (0 < 4 < 2 ^ 32 ∧ (2 | 4) ∧ reachable 4 demo_failed ∧
   good demo_failed = false ∧ 0 ≤ 1 * 4 < 2 ^ 63 ∧
   demo_heap !! 2%positive = Some [xaa; xbb; xcc; xdd] ∧
   1 * 4 ≤ Z.of_nat (length [xaa; xbb; xcc; xdd])) ∧
  ∃ b',
    multiread 4 quiet 0 1 2%positive demo_failed demo_heap
    = Some (b', <[2%positive := swap_pairs (take (Z.to_nat (1 * 4))
                                              [xaa; xbb; xcc; xdd])
                                ++ drop (Z.to_nat (1 * 4)) [xaa; xbb; xcc; xdd]]>
                  demo_heap) ∧
    (1 = 1 →
     read 4 quiet 0 2%positive demo_failed demo_heap
     = multiread 4 quiet 0 1 2%positive demo_failed demo_heap) ∧
    good b' = false ∧ contents (_file b') = contents (_file demo_failed).
Proof.
  assert (H4 : 0 < 4 < 2 ^ 32) by lia.
  assert (Hev : (2 | 4)) by (exists 2; reflexivity).
  assert (Hreach : reachable 4 demo_failed).
  { apply (reachable_serve 4 quiet (Read 2 2%positive) demo_backend demo_heap
             demo_failed demo_heap_failed).
    - apply (reachable_ctor 4 demo_disk quiet "disk" 2 demo_backend None).
      vm_compute. reflexivity.
    - vm_compute. reflexivity. }
  assert (Hbad : good demo_failed = false) by reflexivity.
  assert (Hn : 0 ≤ 1 * 4 < 2 ^ 63) by lia.
  assert (Hdata : demo_heap !! 2%positive = Some [xaa; xbb; xcc; xdd])
    by reflexivity.
  assert (Hlen : 1 * 4 ≤ Z.of_nat (length [xaa; xbb; xcc; xdd])) by (simpl; lia).
  split; [done|].
  exact (read_after_failure 4 quiet demo_failed demo_heap 0 1 2%positive
           [xaa; xbb; xcc; xdd] H4 Hev Hreach Hbad Hn Hdata Hlen).
Defined.

Lemma int_of_range z : - 2 ^ 31 ≤ int_of z < 2 ^ 31.
Proof.
  unfold int_of. pose proof (Z.mod_pos_bound (z + 2 ^ 31) (2 ^ 32)). lia.
Qed.

(** The count an instance reports is the count it was given exactly when
    that is below [2^31]. *)
Lemma numblocks_int_of_iff f n :
  0 ≤ n < 2 ^ 63 →
  numblocks (mk_BSwap16 f (int_of n)) = n ↔ n < 2 ^ 31.
Proof.
  intros Hn. split; [|intros; apply numblocks_int_of; lia].
  unfold numblocks, size_t_of. cbn [_nblocks].
  pose proof (int_of_range n) as Hr. intros Heq.
  destruct (Z.lt_ge_cases (int_of n) 0) as [Hneg|Hpos].
  - rewrite <- (Z.mod_add _ 1) in Heq by lia.
    rewrite Z.mod_small in Heq; lia.
  - rewrite Z.mod_small in Heq; lia.
Qed.

(** X20 (which block counts survive construction): with a size given, an
    existing file and the system serving the requests, the constructor
    gives an instance for every count whose size in bytes is below [2^63],
    and [numblocks ()] on it is the count given if and only if that count
    is below [2^31]: [_nblocks] is an [int]. *)
Theorem block_count_survives_iff BS fs fname nblocks c :
  0 < BS < 2 ^ 32 → openable fs = Some c → Z.of_nat (length c) < 2 ^ 63 →
  0 < nblocks → nblocks * BS < 2 ^ 63 →
  ∃ b w,
    BSwap16_ctor BS fs quiet fname nblocks = Constructed b w ∧
    numblocks b = size_t_of (int_of nblocks) ∧
    (numblocks b = nblocks ↔ nblocks < 2 ^ 31).
Proof.
  intros HBS Hopen Hsize Hn Hmax.
  assert (Hn' : 0 ≤ nblocks < 2 ^ 63) by nia.
  destruct (Z.lt_ge_cases (Z.of_nat (length c)) (nblocks * BS)) as [Hlt|Hge].
  - destruct (growth_of_existing BS fs fname c nblocks)
      as (b & Hb & _ & _ & Hnb & _); [lia | done | done | done | done |].
    exists b. eexists. split; [done|]. split; [done|].
    rewrite Hnb. apply (numblocks_int_of_iff (_file b)). done.
  - rewrite (ctor_opened BS fs quiet fname nblocks c) by done.
    rewrite resolve_keep by (done || lia).
    eexists _, _. split; [done|]. split; [done|].
    by apply numblocks_int_of_iff.
Qed.

Lemma block_count_survives_iff_witness :
  (0 < 4 < 2 ^ 32 ∧ openable demo_disk = Some (replicate 8 x00) ∧
   Z.of_nat (length (replicate 8 x00)) < 2 ^ 63 ∧ 0 < 3 ∧ 3 * 4 < 2 ^ 63) ∧
  ∃ b w,
    BSwap16_ctor 4 demo_disk quiet "disk" 3 = Constructed b w ∧
    numblocks b = size_t_of (int_of 3) ∧
    (numblocks b = 3 ↔ 3 < 2 ^ 31).
Proof.
  assert (H4 : 0 < 4 < 2 ^ 32) by lia.
  assert (Hopen : openable demo_disk = Some (replicate 8 x00)) by reflexivity.
  assert (Hsize : Z.of_nat (length (replicate 8 x00)) < 2 ^ 63) by (simpl; lia).
  assert (H3 : 0 < 3) by lia.
  assert (Hmax : 3 * 4 < 2 ^ 63) by lia.
  split; [done|].
  exact (block_count_survives_iff 4 demo_disk "disk" 3 (replicate 8 x00)
           H4 Hopen Hsize H3 Hmax).
Defined.
